(** * aws_saml_auth.amazon: a shallow embedding of the [Amazon] broker

    The development follows [src/aws_saml_auth/amazon.py].  Python [str] and
    [bytes] values are byte strings (a [str] is read in its UTF-8 encoding;
    every pattern the code searches for is ASCII, so searching bytes and
    searching code points agree).  Dictionaries are [gmap]s.  Whatever lives
    outside the repository (boto3, lxml, base64, datetime) is an interface the
    definitions are generic in. *)

From Stdlib Require Import ZArith Ascii String List Lia Bool.
From stdpp Require Import base option list strings pretty gmap.
From Equations Require Import Equations.

Local Open Scope string_scope.
Local Open Scope Z_scope.

(** ** Python string operations used by the module *)

(** [sub in s] *)
Fixpoint contains (sub s : string) : bool :=
  String.prefix sub s ||
  match s with
  | EmptyString => false
  | String _ s' => contains sub s'
  end.

(** [s.split(sep)] for a one-character separator: every occurrence splits,
    and the result always has at least one field. *)
Fixpoint split (sep : ascii) (s : string) : list string :=
  match s with
  | EmptyString => [EmptyString]
  | String c s' =>
      if Ascii.eqb c sep then EmptyString :: split sep s'
      else match split sep s' with
           | f :: fs => String c f :: fs
           | [] => [String c EmptyString]
           end
  end.

(** [s.removeprefix(p)] when [s] starts with [p], [None] otherwise. *)
Fixpoint strip_prefix (p s : string) : option string :=
  match p, s with
  | EmptyString, _ => Some s
  | String a p', String b s' => if Ascii.eqb a b then strip_prefix p' s' else None
  | String _ _, EmptyString => None
  end.

Definition is_digit (c : ascii) : bool :=
  (48 <=? nat_of_ascii c)%nat && (nat_of_ascii c <=? 57)%nat.

(** The longest run of at most [n] leading ASCII digits: what the greedy
    [[0-9]{_,n}] consumes. *)
Fixpoint take_digits (n : nat) (s : string) : string :=
  match n, s with
  | S n', String c s' => if is_digit c then String c (take_digits n' s') else EmptyString
  | _, _ => EmptyString
  end.

(** [int(s)] on a string of ASCII digits, most significant first. *)
Fixpoint int_acc (acc : Z) (s : string) : Z :=
  match s with
  | EmptyString => acc
  | String c s' => int_acc (10 * acc + (Z.of_nat (nat_of_ascii c) - 48)) s'
  end.

Definition int (s : string) : Z := int_acc 0 s.

(** Every character of [s] is an ASCII digit. *)
Fixpoint all_digits (s : string) : bool :=
  match s with
  | EmptyString => true
  | String c s' => is_digit c && all_digits s'
  end.

(** ** The regular expression of [assume_role] *)

Definition max_duration_phrase : string :=
  "Member must have value less than or equal to ".

(** A match of [phrase([0-9]{3,5})] anchored at the start of [s]:
    the text of group 1. *)
Definition match_here (s : string) : option string :=
  match strip_prefix max_duration_phrase s with
  | Some rest =>
      let g := take_digits 5 rest in
      if (3 <=? String.length g)%nat then Some g else None
  | None => None
  end.

(** [re.search("Member must have value less than or equal to ([0-9]{3,5})", s)]:
    the leftmost match, as [m.group(1)]; [None] when there is no match. *)
Fixpoint re_search (s : string) : option string :=
  match match_here s with
  | Some g => Some g
  | None =>
      match s with
      | EmptyString => None
      | String _ s' => re_search s'
      end
  end.

(** ** Values, exceptions and the objects of the module *)

(** The values stored in a credential dictionary. *)
Inductive pyval :=
| PyStr (s : string)
| PyDatetime (microseconds : Z).

(** [err.response["Error"]] of a botocore [ClientError]. *)
Record ErrorInfo := {
  Code : option string;
  Message : option string;
}.

(** [err.response]: the ["Error"] entry may be absent. *)
Record ErrorResponse := {
  Error : option ErrorInfo;
}.

Inductive exn :=
| ClientError (response : ErrorResponse)
| ProfileNotFound (ex : string)
| ExpectedAmazonException (msg : string)
| AttributeError (msg : string)
| AssertionError (msg : string)
| IndexError
| KeyError (key : string)
| TypeError
| OtherError (class_name : string).

Module Config.
Record t := {
  region : string;
  role_arn : string;
  provider : string;
  duration : option Z;
  auto_duration : bool;
  max_duration : Z;
  token_cache : option (gmap string pyval);
}.
End Config.

(** The response of [assume_role_with_saml], and the shape [__init__] gives a
    cached credential: [{"Credentials": ...}]. *)
Record Token := {
  Credentials : gmap string pyval;
}.

(** [sts_call_vars]: the keyword arguments of one endpoint call;
    [DurationSeconds] is present only when the code sets it. *)
Record StsCallVars := {
  RoleArn : string;
  PrincipalArn : string;
  SAMLAssertion : string;
  DurationSeconds : option Z;
}.

Record Amazon := {
  config : Config.t;
  saml_xml : option string;
  __token : option Token;
  __roles : option (list string);
}.

(** Truthiness, as [if x:] reads it. *)
Definition truthy_dict {V} (d : option (gmap string V)) : bool :=
  match d with
  | Some m => negb (bool_decide (m = ∅))
  | None => false
  end.

Definition truthy_str (s : option string) : bool :=
  match s with
  | Some s => negb (String.eqb s "")
  | None => false
  end.

Definition truthy_int (n : option Z) : bool :=
  match n with
  | Some n => negb (n =? 0)
  | None => false
  end.

(** [Amazon.__init__] *)
Definition Amazon_init (config : Config.t) (saml_xml : option string) : Amazon :=
  if truthy_dict (Config.token_cache config) then
    {| config := config; saml_xml := saml_xml;
       __token := Some {| Credentials := default ∅ (Config.token_cache config) |};
       __roles := Some [Config.role_arn config] |}
  else
    {| config := config; saml_xml := saml_xml; __token := None; __roles := None |}.

(** ** The process state and the outside world *)

(** What a running process holds: the broker object, [os.environ], the state
    of everything reached over the network ([ext]), and a ghost log of the
    calls made to the token-issuing endpoint, oldest first. *)
Record Process (E : Type) := {
  self : Amazon;
  environ : gmap string string;
  sts_calls : list StsCallVars;
  ext : E;
}.
Arguments self {E}.
Arguments environ {E}.
Arguments sts_calls {E}.
Arguments ext {E}.

(** boto3 as the module uses it.  [C] is the type of client objects.
    [boto3_client service region] reads the environment it is given;
    [assume_role_with_saml] is the token-issuing endpoint.  Both may raise
    any exception and may change the outside state. *)
Class Boto3 (E C : Type) := {
  boto3_client : string -> string -> gmap string string -> E -> (exn + C) * E;
  assume_role_with_saml : C -> StsCallVars -> E -> (exn + Token) * E;
}.

(** [base64.b64encode(b).decode("utf-8")]: three bytes become four characters
    of the standard alphabet, the last group padded with [=]. *)
Definition b64_alphabet : string :=
  "ABCDEFGHIJKLMNOPQRSTUVWXYZabcdefghijklmnopqrstuvwxyz0123456789+/".

Definition b64_char (n : N) : ascii :=
  default "="%char (String.get (N.to_nat n) b64_alphabet).

Fixpoint b64encode_bytes (l : list N) : string :=
  match l with
  | a :: b :: c :: rest =>
      let n := (a * 65536 + b * 256 + c)%N in
      String (b64_char (n / 262144)) (String (b64_char (n / 4096 mod 64))
        (String (b64_char (n / 64 mod 64)) (String (b64_char (n mod 64))
          (b64encode_bytes rest))))
  | [a; b] =>
      let n := (a * 65536 + b * 256)%N in
      String (b64_char (n / 262144)) (String (b64_char (n / 4096 mod 64))
        (String (b64_char (n / 64 mod 64)) "="))
  | [a] =>
      let n := (a * 65536)%N in
      String (b64_char (n / 262144)) (String (b64_char (n / 4096 mod 64)) "==")
  | [] => ""
  end.

Definition b64encode (b : string) : string :=
  b64encode_bytes (map N_of_ascii (list_ascii_of_string b)).

(** A computation of the process: it ends with a value or a raised exception,
    and the state it leaves is kept in both cases. *)
Definition M (E A : Type) : Type := Process E -> (exn + A) * Process E.

Definition ret {E A} (a : A) : M E A := fun st => (inr a, st).

Definition raise {E A} (e : exn) : M E A := fun st => (inl e, st).

Definition bind {E A B} (c : M E A) (k : A -> M E B) : M E B :=
  fun st =>
    match c st with
    | (inr a, st') => k a st'
    | (inl e, st') => (inl e, st')
    end.

(** [try: body / except <class> as err: handler]: [handler err] is [None] when
    the clause does not catch [err]. *)
Definition try_except {E A} (body : M E A) (handler : exn -> option (M E A)) : M E A :=
  fun st =>
    match body st with
    | (inr a, st') => (inr a, st')
    | (inl e, st') =>
        match handler e with
        | Some h => h st'
        | None => (inl e, st')
        end
    end.

#[export] Instance M_ret {E} : MRet (M E) := @ret E.
#[export] Instance M_bind {E} : MBind (M E) := fun A B k c => bind c k.

(** Code that touches no state: a value or a raised exception. *)
#[export] Instance exn_ret : MRet (sum exn) := fun A a => inr a.
#[export] Instance exn_bind : MBind (sum exn) := fun A B k c =>
  match c with
  | inr a => k a
  | inl e => inl e
  end.

Definition lift {E A} (c : exn + A) : M E A := fun st => (c, st).

(** [l[i]] on a list and [d[k]] on a dictionary. *)
Definition list_getitem {A} (l : list A) (i : nat) : exn + A :=
  match l !! i with
  | Some x => inr x
  | None => inl IndexError
  end.

Definition dict_getitem {V} (d : gmap string V) (k : string) : exn + V :=
  match d !! k with
  | Some v => inr v
  | None => inl (KeyError k)
  end.

Definition get_self {E} : M E Amazon := fun st => (inr (self st), st).

Definition set_token {E} (t : Token) : M E unit := fun st =>
  (inr tt,
   {| self := {| config := config (self st); saml_xml := saml_xml (self st);
                 __token := Some t; __roles := __roles (self st) |};
      environ := environ st; sts_calls := sts_calls st; ext := ext st |}).

(** [os.environ.get(name)] *)
Definition os_environ_get {E} (name : string) : M E (option string) :=
  fun st => (inr (environ st !! name), st).

(** [del os.environ[name]] *)
Definition os_environ_del {E} (name : string) : M E unit := fun st =>
  match environ st !! name with
  | Some _ =>
      (inr tt, {| self := self st; environ := delete name (environ st);
                  sts_calls := sts_calls st; ext := ext st |})
  | None => (inl (KeyError name), st)
  end.

(** [os.environ[name] = value] *)
Definition os_environ_set {E} (name value : string) : M E unit := fun st =>
  (inr tt, {| self := self st; environ := <[name := value]> (environ st);
              sts_calls := sts_calls st; ext := ext st |}).

(** [boto3.client(service, region_name=region)], in the current environment. *)
Definition client {E C} `{Boto3 E C} (service region : string) : M E C := fun st =>
  let '(r, e) := boto3_client service region (environ st) (ext st) in
  (r, {| self := self st; environ := environ st; sts_calls := sts_calls st; ext := e |}).

(** [client.assume_role_with_saml] applied to the keyword arguments
    [sts_call_vars]; the call is logged. *)
Definition call_assume_role_with_saml {E C} `{Boto3 E C}
    (c : C) (sts_call_vars : StsCallVars) : M E Token := fun st =>
  let '(r, e) := assume_role_with_saml c sts_call_vars (ext st) in
  (r, {| self := self st; environ := environ st;
         sts_calls := sts_calls st ++ [sts_call_vars]; ext := e |}).

(** ** [Amazon.sts_client] *)

Definition sts_client {E C} `{Boto3 E C} : M E C :=
  try_except
    (profile ← os_environ_get "AWS_PROFILE";
     (match profile with Some _ => os_environ_del "AWS_PROFILE" | None => ret tt end) ;;
     this ← get_self;
     c ← client "sts" (Config.region (config this));
     (match profile with Some p => os_environ_set "AWS_PROFILE" p | None => ret tt end) ;;
     ret c)
    (fun err =>
       match err with
       | ProfileNotFound ex =>
           Some (raise (ExpectedAmazonException ("Error : " ++ ex ++ ".")))
       | _ => None
       end).

(** [Amazon.base64_encoded_saml]: [b64encode(None)] is a [TypeError]. *)
Definition base64_encoded_saml (this : Amazon) : exn + string :=
  match saml_xml this with
  | Some xml => inr (b64encode xml)
  | None => inl TypeError
  end.

(** ** [Amazon.assume_role] *)

(** How a block of statements ends: with [return v], or by running on to the
    statement after it, with the local [sts_call_vars] as the block left it. *)
Inductive completion :=
| Return (v : Token)
| Next (sts_call_vars : StsCallVars).

Section AssumeRole.
Context {E C : Type} `{Boto3 E C}.

(** The expression [self.sts_client.assume_role_with_saml] applied to
    [sts_call_vars]: a fresh client, then one call of the endpoint. *)
Definition sts_client_assume_role_with_saml (sts_call_vars : StsCallVars) : M E Token :=
  c ← sts_client;
  call_assume_role_with_saml c sts_call_vars.

Equations? assume_role (role principal saml_assertion : string) (duration : option Z)
    (auto_duration : bool) (st : Process E) : (exn + Token) * Process E
    by wf (Nat.b2n auto_duration) lt :=
assume_role role principal saml_assertion duration auto_duration st :=
  (let sts_call_vars :=
     {| RoleArn := role; PrincipalArn := principal;
        SAMLAssertion := saml_assertion; DurationSeconds := None |} in
   this ← get_self;
   o ← match decide (Config.auto_duration (config this) && auto_duration = true) with
       | left Hauto =>
           let sts_call_vars :=
             {| RoleArn := role; PrincipalArn := principal;
                SAMLAssertion := saml_assertion;
                DurationSeconds := Some (Config.max_duration (config this)) |} in
           try_except
             (res ← sts_client_assume_role_with_saml sts_call_vars;
              mret (Next sts_call_vars))
             (fun err =>
                match err with
                | ClientError response =>
                    Some
                      match Error response with
                      | None => raise (AttributeError "'list' object has no attribute 'get'")
                      | Some info =>
                          if bool_decide (Code info = Some "ValidationError")
                             && truthy_str (Message info)
                          then
                            match re_search (default "" (Message info)) with
                            | Some g =>
                                if truthy_str (Some g) then
                                  let new_duration := int g in
                                  fun st' =>
                                    match assume_role role principal saml_assertion
                                            (Some new_duration) false st' with
                                    | (inr res, st'') => (inr (Return res), st'')
                                    | (inl e, st'') => (inl e, st'')
                                    end
                                else raise err
                            | None => raise err
                            end
                          else raise err
                      end
                | _ => None
                end)
       | right _ =>
           if truthy_int duration then
             mret (Next {| RoleArn := role; PrincipalArn := principal;
                           SAMLAssertion := saml_assertion;
                           DurationSeconds := duration |})
           else mret (Next sts_call_vars)
       end;
   match o with
   | Return v => mret v
   | Next sts_call_vars =>
       res ← sts_client_assume_role_with_saml sts_call_vars;
       mret res
   end) st.
Proof.
  apply andb_true_iff in Hauto as [_ ->]. simpl. lia.
Qed.

End AssumeRole.

(** ** [Amazon.token] and the accessors derived from it *)

Section Token.
Context {E C : Type} `{Boto3 E C}.

(** Each branch returns what [self.__token] holds when [return self.__token]
    is reached. *)
Definition token : M E Token :=
  this ← get_self;
  match __token this with
  | None =>
      saml ← lift (base64_encoded_saml this);
      t ← assume_role (Config.role_arn (config this)) (Config.provider (config this))
            saml (Config.duration (config this)) true;
      set_token t;;
      mret t
  | Some t => mret t
  end.

Definition access_key_id : M E pyval :=
  t ← token; lift (dict_getitem (Credentials t) "AccessKeyId").

Definition secret_access_key : M E pyval :=
  t ← token; lift (dict_getitem (Credentials t) "SecretAccessKey").

Definition session_token : M E pyval :=
  t ← token; lift (dict_getitem (Credentials t) "SessionToken").

Definition expiration : M E pyval :=
  t ← token; lift (dict_getitem (Credentials t) "Expiration").

(** The ways a caller reads the credential. *)
Inductive access :=
| GetToken
| GetAccessKeyId
| GetSecretAccessKey
| GetSessionToken
| GetExpiration.

Definition perform (a : access) : M E (Token + pyval) :=
  match a with
  | GetToken => t ← token; mret (inl t)
  | GetAccessKeyId => v ← access_key_id; mret (inr v)
  | GetSecretAccessKey => v ← secret_access_key; mret (inr v)
  | GetSessionToken => v ← session_token; mret (inr v)
  | GetExpiration => v ← expiration; mret (inr v)
  end.

(** The state after a caller performs the accesses of [l] in turn, an access
    that raises included. *)
Definition perform_all (l : list access) (st : Process E) : Process E :=
  foldl (fun st a => (perform a st).2) st l.

End Token.

(** What access [a] reads off the token [t]. *)
Definition value_of (a : access) (t : Token) : exn + (Token + pyval) :=
  match a with
  | GetToken => inr (inl t)
  | GetAccessKeyId => v ← dict_getitem (Credentials t) "AccessKeyId"; mret (inr v)
  | GetSecretAccessKey => v ← dict_getitem (Credentials t) "SecretAccessKey"; mret (inr v)
  | GetSessionToken => v ← dict_getitem (Credentials t) "SessionToken"; mret (inr v)
  | GetExpiration => v ← dict_getitem (Credentials t) "Expiration"; mret (inr v)
  end.

(** ** The parsed document *)

Set Warnings "-register-all".

(** An lxml tree as XPath sees it: elements and text nodes in document order.
    A tag or attribute name is in Clark notation ([{namespace}local]).
    Comments and processing instructions are left out: neither query of the
    module selects them or anything inside them. *)
Inductive node :=
| Element (tag : string) (attrib : list (string * string)) (children : list node)
| Text (data : string).

(** [etree.fromstring]: the root element, or the parser's exception. *)
Class Lxml := {
  fromstring : string -> exn + node;
}.

(** [element.get(key)] *)
Definition attrib_get (attrib : list (string * string)) (key : string) : option string :=
  snd <$> List.find (fun kv => String.eqb (fst kv) key) attrib.

Definition get (n : node) (key : string) : option string :=
  match n with
  | Element _ attrib _ => attrib_get attrib key
  | Text _ => None
  end.

(** [n.iter(tag=tag)]: [n] and its descendants carrying [tag], in document
    order. *)
Fixpoint iter (tag : string) (n : node) : list node :=
  match n with
  | Element t attrib children =>
      (if String.eqb t tag then [n] else []) ++ flat_map (iter tag) children
  | Text _ => []
  end.

(** The text nodes at or below [n], in document order. *)
Fixpoint text_nodes (n : node) : list string :=
  match n with
  | Element _ _ children => flat_map text_nodes children
  | Text data => [data]
  end.

(** [//*[@Name = name]//text()]: every text node that has an ancestor element
    whose [Name] attribute is [name], once each, in document order. *)
Fixpoint xpath_Name_text (name : string) (n : node) : list string :=
  match n with
  | Element _ attrib children =>
      if bool_decide (attrib_get attrib "Name" = Some name)
      then flat_map text_nodes children
      else flat_map (xpath_Name_text name) children
  | Text _ => []
  end.

(** [n] and the elements below it, in document order. *)
Fixpoint elements (n : node) : list node :=
  match n with
  | Element _ _ children => n :: flat_map elements children
  | Text _ => []
  end.

(** ** [Amazon.roles] *)

Definition role_attribute : string := "https://aws.amazon.com/SAML/Attributes/Role".

Definition has_iam_marker (x : string) : bool :=
  contains "arn:aws:iam:" x || contains "arn:aws-us-gov:iam:" x.

(** One turn of the loop of [roles] on the text node [x]. *)
Definition roles_step (roles : gmap string string) (x : string) : exn + gmap string string :=
  if has_iam_marker x then
    let res := split "," x in
    v ← list_getitem res 1;
    k ← list_getitem res 0;
    mret (<[k := v]> roles)
  else mret roles.

(** [for x in xs: body], stopping at the first exception. *)
Fixpoint for_each {A S} (body : S -> A -> exn + S) (s : S) (xs : list A) : exn + S :=
  match xs with
  | [] => inr s
  | x :: xs' =>
      match body s x with
      | inr s' => for_each body s' xs'
      | inl e => inl e
      end
  end.

Definition roles `{Lxml} (this : Amazon) : exn + gmap string string :=
  match saml_xml this with
  | None => inl (AssertionError "Cannot load roles without saml.")
  | Some xml =>
      doc ← fromstring xml;
      for_each roles_step ∅ (xpath_Name_text role_attribute doc)
  end.

(** The mapping [roles] builds from the text nodes [xs] when none of them
    makes it raise: a node with a marker binds its first field to its second,
    a later node overriding an earlier one. *)
Definition roles_of_texts (xs : list string) : gmap string string :=
  foldl (fun roles x =>
           if has_iam_marker x
           then <[default "" (split "," x !! 0%nat) := default "" (split "," x !! 1%nat)]> roles
           else roles)
        ∅ xs.

(** Splitting once, as the specification words it ([x.split(",", 1)]): the
    text before the first separator and the whole text after it. *)
Fixpoint split_once (sep : ascii) (s : string) : list string :=
  match s with
  | EmptyString => [EmptyString]
  | String c s' =>
      if Ascii.eqb c sep then [EmptyString; s']
      else match split_once sep s' with
           | f :: fs => String c f :: fs
           | [] => [String c EmptyString]
           end
  end.

(** ** [Amazon.is_valid_saml_assertion] *)

(** A naive [datetime]: microseconds since 0001-01-01T00:00:00, which orders
    them as Python does. *)
Definition datetime : Type := Z.

(** [datetime.strptime(s, format)]: the instant, or [ValueError]. *)
Class Strptime := {
  strptime : string -> string -> exn + datetime;
}.

Definition conditions_tag : string := "{urn:oasis:names:tc:SAML:2.0:assertion}Conditions".

Definition timestamp_format : string := "%Y-%m-%dT%H:%M:%S.%fZ".

(** [datetime.strptime] on what [element.get] returned: [None] is a
    [TypeError]. *)
Definition strptime_arg `{Strptime} (s : option string) (format : string) : exn + datetime :=
  match s with
  | Some s => strptime s format
  | None => inl TypeError
  end.

(** The body of the [try] block; [now] is what [datetime.utcnow()] reads. *)
Definition is_valid_saml_assertion_try `{Lxml} `{Strptime}
    (now : datetime) (saml_xml : string) : exn + bool :=
  doc ← fromstring saml_xml;
  let conditions := iter conditions_tag doc in
  c0 ← list_getitem conditions 0;
  let not_before_str := get c0 "NotBefore" in
  c0' ← list_getitem conditions 0;
  let not_on_or_after_str := get c0' "NotOnOrAfter" in
  not_before ← strptime_arg not_before_str timestamp_format;
  not_on_or_after ← strptime_arg not_on_or_after_str timestamp_format;
  if (not_before <=? now) && (now <? not_on_or_after) then mret true else mret false.

Definition is_valid_saml_assertion `{Lxml} `{Strptime}
    (now : datetime) (saml_xml : option string) : bool :=
  match saml_xml with
  | None => false
  | Some xml =>
      match is_valid_saml_assertion_try now xml with
      | inr b => b
      | inl _ => false
      end
  end.

(** ** [Amazon.resolve_aws_aliases] *)

(** Lines 160-179 of one worker: the anonymous credential exchange for
    [role]/[principal] and the alias listing made with its credentials, ending
    in [response["AccountAliases"]] or in the exception of the step that
    failed. *)
Class AliasListing := {
  list_account_aliases : string -> string -> string -> string -> exn + list string;
}.

(** Lines 160-180: the value of [account_alias], or the exception raised on
    the way to it. *)
Definition account_alias_of `{AliasListing}
    (this : Amazon) (role principal : string) : exn + string :=
  saml ← base64_encoded_saml this;
  AccountAliases ← list_account_aliases (Config.region (config this)) role principal saml;
  list_getitem AccountAliases 0.

(** [role.split(":")[4]] *)
Definition account_of (role : string) : exn + string :=
  list_getitem (split ":" role) 4.

(** The worker [resolve_aws_alias]: the dictionary after its single write, or
    the exception that ends the thread. *)
Definition resolve_aws_alias `{AliasListing}
    (this : Amazon) (role principal : string) (aws_dict : gmap string string)
    : exn + gmap string string :=
  match
    (account_alias ← account_alias_of this role principal;
     account ← account_of role;
     mret (<[account := account_alias]> aws_dict))
  with
  | inr d => inr d
  | inl err =>
      v ← account_of role;
      account ← account_of role;
      mret (<[account := v]> aws_dict)
  end.

(** A thread that ends with an exception leaves the dictionary as it was; the
    exception does not reach the thread that joins it. *)
Definition run_thread `{AliasListing}
    (this : Amazon) (aws_dict : gmap string string) (args : string * string)
    : gmap string string :=
  match resolve_aws_alias this args.1 args.2 aws_dict with
  | inr d => d
  | inl _ => aws_dict
  end.

(** The dictionary returned when the workers' writes land in the order
    [order].  Each worker writes once, as its last step, so an execution is
    fixed by the order of the writes. *)
Definition resolve_aws_aliases_in `{AliasListing}
    (this : Amazon) (order : list (string * string)) : gmap string string :=
  foldl (run_thread this) ∅ order.

(** [resolve_aws_aliases(roles)] may return [result]: some order of the
    workers started for [roles.items()] yields it. *)
Definition resolve_aws_aliases `{AliasListing}
    (this : Amazon) (roles : gmap string string) (result : gmap string string) : Prop :=
  ∃ order, order ≡ₚ map_to_list roles ∧ result = resolve_aws_aliases_in this order.

(** ** [Amazon.print_export_line] and [Amazon.print_credential_process] *)

(** [template.format] applied to [args], for a template whose fields are all
    [{}], as the module's template is: each [{}] takes the next argument,
    [{{] and [}}] stand for a brace, any other use of a brace is a
    [ValueError], and running out of arguments is an [IndexError]. *)
Fixpoint format (template : string) (args : list string) : exn + string :=
  match template with
  | EmptyString => inr EmptyString
  | String c rest =>
      if Ascii.eqb c "{" then
        match rest with
        | String c' rest' =>
            if Ascii.eqb c' "}" then
              match args with
              | a :: args' => r ← format rest' args'; mret (a ++ r)
              | [] => inl IndexError
              end
            else if Ascii.eqb c' "{" then r ← format rest' args; mret (String "{" r)
            else inl (OtherError "ValueError")
        | EmptyString => inl (OtherError "ValueError")
        end
      else if Ascii.eqb c "}" then
        match rest with
        | String c' rest' =>
            if Ascii.eqb c' "}" then r ← format rest' args; mret (String "}" r)
            else inl (OtherError "ValueError")
        | EmptyString => inl (OtherError "ValueError")
        end
      else r ← format rest args; mret (String c r)
  end.

Definition export_template : string :=
  "export AWS_ACCESS_KEY_ID='{}' AWS_SECRET_ACCESS_KEY='{}' AWS_SESSION_TOKEN='{}'".

(** The text of a [datetime]: [str(d)] and [d.isoformat()]. *)
Class DatetimeText := {
  datetime_str : Z -> string;
  isoformat : Z -> string;
}.

(** [str(v)], which [format] applies to an argument. *)
Definition str `{DatetimeText} (v : pyval) : string :=
  match v with
  | PyStr s => s
  | PyDatetime d => datetime_str d
  end.

(** The values [json.dumps] is given, and [json.dumps] on a dictionary of
    them, keys in insertion order. *)
Inductive jsonval :=
| JInt (n : Z)
| JStr (s : string).

Class Json := {
  json_dumps : list (string * jsonval) -> string;
}.

(** A [datetime] is not JSON serializable. *)
Definition to_json (v : pyval) : exn + jsonval :=
  match v with
  | PyStr s => inr (JStr s)
  | PyDatetime _ => inl TypeError
  end.

(** [v.isoformat()] *)
Definition call_isoformat `{DatetimeText} (v : pyval) : exn + string :=
  match v with
  | PyDatetime d => inr (isoformat d)
  | PyStr _ => inl (AttributeError "'str' object has no attribute 'isoformat'")
  end.

(** A process with its standard output. *)
Record Console (E : Type) := {
  process : Process E;
  stdout : string;
}.
Arguments process {E}.
Arguments stdout {E}.

Definition newline : string := String (ascii_of_nat 10) EmptyString.

(** [print(text)] *)
Definition print {E} (text : string) (con : Console E) : Console E :=
  {| process := process con; stdout := stdout con ++ text ++ newline |}.

(** A computation of the process, run in the console. *)
Definition run {E A} (c : M E A) (con : Console E) : (exn + A) * Console E :=
  let '(r, st) := c (process con) in
  (r, {| process := st; stdout := stdout con |}).

Section Output.
Context {E C : Type} `{Boto3 E C} `{DatetimeText} `{Json}.

(** The value of [formatted] in [print_export_line]. *)
Definition export_line : M E string :=
  a ← access_key_id;
  s ← secret_access_key;
  t ← session_token;
  lift (format export_template [str a; str s; str t]).

Definition print_export_line (con : Console E) : (exn + unit) * Console E :=
  match run export_line con with
  | (inr formatted, con') => (inr tt, print formatted con')
  | (inl e, con') => (inl e, con')
  end.

(** The argument of [print] in [print_credential_process]: the dictionary is
    built entry by entry, then dumped. *)
Definition credential_process_text : M E string :=
  a ← access_key_id;
  s ← secret_access_key;
  t ← session_token;
  e ← expiration;
  iso ← lift (call_isoformat e);
  lift (ja ← to_json a;
        js ← to_json s;
        jt ← to_json t;
        mret (json_dumps [("Version", JInt 1); ("AccessKeyId", ja);
                          ("SecretAccessKey", js); ("SessionToken", jt);
                          ("Expiration", JStr iso)])).

Definition print_credential_process (con : Console E) : (exn + unit) * Console E :=
  match run credential_process_text con with
  | (inr text, con') => (inr tt, print text con')
  | (inl e, con') => (inl e, con')
  end.

End Output.

(** ** Vocabulary for the statements about [resolve_aws_aliases] *)

(** The value a worker writes for [role] under the key [account]: the first
    alias listed, or [account] itself when the lookup raised. *)
Definition alias_entry `{AliasListing}
    (this : Amazon) (role principal account : string) : string :=
  match account_alias_of this role principal with
  | inr account_alias => account_alias
  | inl _ => account
  end.

(** ** Vocabulary for the statements about [assume_role] *)

(** [sts_call_vars] of the probe: the configured maximum as the duration. *)
Definition probe_call_vars (this : Amazon) (role principal saml_assertion : string) : StsCallVars :=
  {| RoleArn := role; PrincipalArn := principal; SAMLAssertion := saml_assertion;
     DurationSeconds := Some (Config.max_duration (config this)) |}.

(** [sts_call_vars] of an attempt that does not negotiate: the duration is
    sent when it is given and not zero, and left out otherwise. *)
Definition fixed_call_vars (role principal saml_assertion : string) (duration : option Z)
    : StsCallVars :=
  {| RoleArn := role; PrincipalArn := principal; SAMLAssertion := saml_assertion;
     DurationSeconds := if truthy_int duration then duration else None |}.

(** The text the handler of [assume_role] takes the new duration from, if
    the error is one it narrows on. *)
Definition narrowing_group (err : exn) : option string :=
  match err with
  | ClientError {| Error := Some info |} =>
      if bool_decide (Code info = Some "ValidationError") && truthy_str (Message info)
      then re_search (default "" (Message info))
      else None
  | _ => None
  end.

(** What the handler raises when it does not narrow: the error itself, except
    for a [ClientError] whose response has no ["Error"] entry. *)
Definition handler_raises (err : exn) : exn :=
  match err with
  | ClientError {| Error := None |} => AttributeError "'list' object has no attribute 'get'"
  | _ => err
  end.

(** The calls an invocation of [assume_role] may log. *)
Definition sent_by (this : Amazon) (role principal saml : string) (duration : option Z)
    (v : StsCallVars) : Prop :=
  RoleArn v = role ∧ PrincipalArn v = principal ∧ SAMLAssertion v = saml
  ∧ (DurationSeconds v = None
     ∨ DurationSeconds v = duration
     ∨ DurationSeconds v = Some (Config.max_duration (config this))
     ∨ ∃ N, DurationSeconds v = Some N ∧ 1 <= N <= 99999).

(** The bound as the specification words it: the phrase followed by a decimal
    number, the whole run of digits. *)
Definition spec_match_here (s : string) : option Z :=
  match strip_prefix max_duration_phrase s with
  | Some rest =>
      let g := take_digits (String.length rest) rest in
      if String.eqb g "" then None else Some (int g)
  | None => None
  end.

Fixpoint spec_bound (s : string) : option Z :=
  match spec_match_here s with
  | Some n => Some n
  | None =>
      match s with
      | EmptyString => None
      | String _ s' => spec_bound s'
      end
  end.

(** ** Concrete worlds for the examples *)

(** A scripted outside world: the outcomes of the client constructions still
    to come and the responses of the endpoint still to come, in order.  When a
    list runs out, construction succeeds and the endpoint is unreachable. *)
Record Script := {
  constructions : list (exn + unit);
  responses : list (exn + Token);
}.

Definition scripted : Boto3 Script unit := {|
  boto3_client _ _ _ e :=
    match constructions e with
    | r :: rest => (r, {| constructions := rest; responses := responses e |})
    | [] => (inr tt, e)
    end;
  assume_role_with_saml _ _ e :=
    match responses e with
    | r :: rest => (r, {| constructions := constructions e; responses := rest |})
    | [] => (inl (OtherError "EndpointConnectionError"), e)
    end;
|}.

Definition credentials_of (key : string) : Token :=
  {| Credentials := {[ "AccessKeyId" := PyStr key ]} |}.

Definition validation_error (message : string) : exn :=
  ClientError {| Error := Some {| Code := Some "ValidationError"; Message := Some message |} |}.

Definition example_config : Config.t := {|
  Config.region := "eu-west-1";
  Config.role_arn := "arn:aws:iam::111111111111:role/Foo";
  Config.provider := "arn:aws:iam::111111111111:saml-provider/Bar";
  Config.duration := Some 3600;
  Config.auto_duration := true;
  Config.max_duration := 43200;
  Config.token_cache := None;
|}.

Definition example_process (env : gmap string string) (script : Script) : Process Script := {|
  self := Amazon_init example_config (Some "<a/>x");
  environ := env;
  sts_calls := [];
  ext := script;
|}.

Definition probe_vars : StsCallVars := {|
  RoleArn := "arn:aws:iam::111111111111:role/Foo";
  PrincipalArn := "arn:aws:iam::111111111111:saml-provider/Bar";
  SAMLAssertion := "PGEvPng=";
  DurationSeconds := Some 43200;
|}.

(** An alias listing that answers from a table keyed by role, and is
    unreachable for every other role. *)
Definition listing_of (table : list (string * (exn + list string))) : AliasListing := {|
  list_account_aliases _ role _ _ :=
    match List.find (fun d => String.eqb (fst d) role) table with
    | Some d => snd d
    | None => inl (OtherError "EndpointConnectionError")
    end;
|}.

(** A parser that knows the documents of [docs] and rejects every other
    input, and a [strptime] that knows the timestamps of [stamps]. *)
Definition parser_of (docs : list (string * node)) : Lxml := {|
  fromstring xml :=
    match List.find (fun d => String.eqb (fst d) xml) docs with
    | Some d => inr (snd d)
    | None => inl (OtherError "XMLSyntaxError")
    end;
|}.

Definition strptime_of (stamps : list (string * datetime)) : Strptime := {|
  strptime s _ :=
    match List.find (fun d => String.eqb (fst d) s) stamps with
    | Some d => inr (snd d)
    | None => inl (OtherError "ValueError")
    end;
|}.

(** A SAML response with one [Conditions] element and one role attribute
    whose values are [role_values]. *)
Definition example_document (not_before not_on_or_after : string)
    (role_values : list string) : node :=
  Element "{urn:oasis:names:tc:SAML:2.0:protocol}Response" []
    [Element "{urn:oasis:names:tc:SAML:2.0:assertion}Assertion" []
       [Element conditions_tag
          [("NotBefore", not_before); ("NotOnOrAfter", not_on_or_after)] [];
        Element "{urn:oasis:names:tc:SAML:2.0:assertion}AttributeStatement" []
          [Element "{urn:oasis:names:tc:SAML:2.0:assertion}Attribute"
             [("Name", role_attribute)]
             (map (fun v =>
                     Element "{urn:oasis:names:tc:SAML:2.0:assertion}AttributeValue" []
                       [Text v])
                  role_values)]]].

(** Texts of instants and a JSON writer for the examples: every instant reads
    as noon of 2024-01-01, and strings are written between quotes as they
    are. *)
Definition example_texts : DatetimeText := {|
  datetime_str _ := "2024-01-01 12:00:00+00:00";
  isoformat _ := "2024-01-01T12:00:00+00:00";
|}.

Definition quoted (s : string) : string := String (ascii_of_nat 34) s ++ String (ascii_of_nat 34) "".

Fixpoint plain_json_items (d : list (string * jsonval)) : string :=
  match d with
  | [] => ""
  | (k, v) :: rest =>
      quoted k ++ ": "
      ++ match v with JInt n => pretty n | JStr s => quoted s end
      ++ match rest with [] => "" | _ => ", " ++ plain_json_items rest end
  end.

Definition plain_json : Json := {|
  json_dumps d := "{" ++ plain_json_items d ++ "}";
|}.

(** A console whose broker holds the credential [credentials]. *)
Definition example_console (credentials : gmap string pyval) : Console Script := {|
  process := {|
    self := {| config := example_config; saml_xml := None;
               __token := Some {| Credentials := credentials |}; __roles := None |};
    environ := ∅; sts_calls := []; ext := {| constructions := []; responses := [] |} |};
  stdout := "";
|}.

(** * Properties *)

(** ** The string operations on examples *)

Example re_search_28800 :
  re_search "1 validation error detected: Value '43200' at 'durationSeconds' failed to satisfy constraint: Member must have value less than or equal to 28800"
  = Some "28800".
Proof. reflexivity. Qed.

Example split_ex : split "," "a,b,,c" = ["a"; "b"; ""; "c"].
Proof. reflexivity. Qed.

Example b64encode_ex : b64encode "<a/>x" = "PGEvPng=".
Proof. reflexivity. Qed.

(** ** The client property and the environment *)

Section Client.
Context {E C : Type} `{Boto3 E C}.

(** [sts_client] in one step: the client is built in the environment without
    [AWS_PROFILE]; the setting is put back only when construction returns. *)
Lemma sts_client_unfold (st : Process E) :
  sts_client st =
    let env := delete "AWS_PROFILE" (environ st) in
    match boto3_client "sts" (Config.region (config (self st))) env (ext st) with
    | (inr c, e) =>
        (inr c, {| self := self st; environ := environ st;
                   sts_calls := sts_calls st; ext := e |})
    | (inl err, e) =>
        (inl match err with
             | ProfileNotFound ex => ExpectedAmazonException ("Error : " ++ ex ++ ".")
             | _ => err
             end,
         {| self := self st; environ := env; sts_calls := sts_calls st; ext := e |})
    end.
Proof.
  unfold sts_client, try_except, mbind, M_bind, bind, os_environ_get, os_environ_del,
    os_environ_set, get_self, client, ret.
  destruct (environ st !! "AWS_PROFILE") as [p|] eqn:Hp; cbn [self environ sts_calls ext].
  - rewrite Hp. cbn [self environ sts_calls ext].
    destruct (boto3_client _ _ _ _) as [[err|c] e]; cbn [self environ sts_calls ext].
    + destruct err; reflexivity.
    + rewrite insert_delete_id by exact Hp. reflexivity.
  - rewrite (delete_id _ _ Hp).
    destruct (boto3_client _ _ _ _) as [[err|c] e]; cbn [self environ sts_calls ext].
    + destruct err; reflexivity.
    + reflexivity.
Qed.

Lemma sts_client_calls (st : Process E) :
  sts_calls (sts_client st).2 = sts_calls st ∧ self (sts_client st).2 = self st.
Proof.
  rewrite sts_client_unfold. cbn zeta.
  destruct (boto3_client _ _ _ _) as [[err|c] e]; split; reflexivity.
Qed.

(** When construction returns a client the environment is as before. *)
Lemma sts_client_success_restores (st st' : Process E) (c : C) :
  sts_client st = (inr c, st') → environ st' = environ st.
Proof.
  rewrite sts_client_unfold. cbn zeta.
  destruct (boto3_client _ _ _ _) as [[err|c'] e]; intros [= <- <-]; reflexivity.
Qed.

(** When construction raises, [AWS_PROFILE] stays removed. *)
Lemma sts_client_failure_drops_profile (st st' : Process E) (err : exn) :
  sts_client st = (inl err, st') → environ st' = delete "AWS_PROFILE" (environ st).
Proof.
  rewrite sts_client_unfold. cbn zeta.
  destruct (boto3_client _ _ _ _) as [[err'|c'] e]; intros [= <- <-]; reflexivity.
Qed.

End Client.

(** C9 (the code at the failing inputs).  With [AWS_PROFILE=dev] set and a
    client construction that raises, [sts_client] leaves the environment
    without [AWS_PROFILE]: the setting is not restored on this exit path.
    This is so when construction raises [ProfileNotFound], turned into
    [ExpectedAmazonException], and when it raises anything else, such as
    [InvalidRegionError], which passes through. *)
Lemma sts_client_drops_profile_on_failure :
  let st err := example_process {[ "AWS_PROFILE" := "dev" ]}
                  {| constructions := [inl err]; responses := [] |} in
  let missing := ProfileNotFound "The config profile (x) could not be found" in
  let bad_region := OtherError "InvalidRegionError" in
  environ (st missing) !! "AWS_PROFILE" = Some "dev"
  ∧ (@sts_client _ _ scripted (st missing)).1
      = inl (ExpectedAmazonException "Error : The config profile (x) could not be found.")
  ∧ environ (@sts_client _ _ scripted (st missing)).2 !! "AWS_PROFILE" = None
  ∧ (@sts_client _ _ scripted (st bad_region)).1 = inl bad_region
  ∧ environ (@sts_client _ _ scripted (st bad_region)).2 !! "AWS_PROFILE" = None.
Proof. vm_compute. done. Qed.

(** ** The regular expression *)

Lemma take_digits_length (n : nat) (s : string) :
  (String.length (take_digits n s) <= n)%nat.
Proof.
  revert s; induction n as [|n IH]; intros [|c s]; simpl; try lia.
  destruct (is_digit c); simpl; [specialize (IH s)|]; lia.
Qed.

Lemma match_here_length (s g : string) :
  match_here s = Some g → (3 <= String.length g <= 5)%nat.
Proof.
  unfold match_here. destruct (strip_prefix _ _) as [rest|]; [|done].
  cbn zeta. generalize (take_digits_length 5 rest).
  generalize (take_digits 5 rest). intros d Hd.
  destruct (3 <=? _)%nat eqn:Hlen; [|done].
  intros [= <-]. apply Nat.leb_le in Hlen. lia.
Qed.

Lemma re_search_length (s g : string) :
  re_search s = Some g → (3 <= String.length g <= 5)%nat.
Proof.
  induction s as [|c s IH]; cbn [re_search].
  - destruct (match_here "") eqn:Hm; [|done].
    intros [= <-]. by apply match_here_length in Hm.
  - destruct (match_here (String c s)) eqn:Hm.
    + intros [= <-]. by apply match_here_length in Hm.
    + exact IH.
Qed.

Lemma re_search_truthy (s g : string) :
  re_search s = Some g → truthy_str (Some g) = true.
Proof.
  intros Hs%re_search_length. destruct g; simpl in *; [lia|done].
Qed.

Lemma strip_prefix_spec (p s r : string) :
  strip_prefix p s = Some r ↔ s = p ++ r.
Proof.
  revert s; induction p as [|a p IH]; intros s; cbn.
  - split; [intros [= ->] | intros ->]; reflexivity.
  - destruct s as [|b s]; [split; discriminate|].
    destruct (Ascii.eqb a b) eqn:Hab.
    + apply Ascii.eqb_eq in Hab as ->. rewrite IH.
      split; [intros -> | intros [= ->]]; reflexivity.
    + apply Ascii.eqb_neq in Hab. split; [discriminate | intros [= -> _]; done].
Qed.

Lemma take_digits_spec (n : nat) (s : string) :
  ∃ rest, s = take_digits n s ++ rest ∧ all_digits (take_digits n s) = true.
Proof.
  revert s; induction n as [|n IH]; intros [|c s]; cbn; try by eexists.
  destruct (is_digit c) eqn:Hc; cbn; [|by eexists].
  destruct (IH s) as (rest & Hs & Hd). exists rest.
  rewrite Hc, Hd. split; [exact (f_equal (String c) Hs) | done].
Qed.

Lemma append_cons (c : ascii) (s t : string) : String c s ++ t = String c (s ++ t).
Proof. reflexivity. Qed.

Lemma append_nil (t : string) : "" ++ t = t.
Proof. reflexivity. Qed.

Lemma take_digits_app (n : nat) (d rest : string) :
  all_digits d = true →
  (Nat.min n (String.length d) <= String.length (take_digits n (d ++ rest)))%nat.
Proof.
  revert d; induction n as [|n IH]; intros [|c d];
    rewrite ?append_cons, ?append_nil;
    cbn [take_digits String.length all_digits Nat.min]; try lia.
  intros [Hc Hd]%andb_true_iff. rewrite Hc. cbn [String.length].
  specialize (IH d Hd). lia.
Qed.

(** What a match is: the phrase, then the group, a run of three to five
    digits that is as long as the text allows up to five. *)
Lemma re_search_sound (s g : string) :
  re_search s = Some g →
  ∃ pre post, s = pre ++ max_duration_phrase ++ g ++ post
    ∧ all_digits g = true ∧ (3 <= String.length g <= 5)%nat
    ∧ take_digits 5 (g ++ post) = g.
Proof.
  intros Hs. pose proof (re_search_length _ _ Hs) as Hlen.
  assert (Hhere : ∀ t, match_here t = Some g →
            ∃ post, t = max_duration_phrase ++ g ++ post
              ∧ all_digits g = true ∧ take_digits 5 (g ++ post) = g).
  { intros t. unfold match_here.
    destruct (strip_prefix max_duration_phrase t) as [rest|] eqn:Hp; [|done].
    apply strip_prefix_spec in Hp. cbn zeta.
    destruct (take_digits_spec 5 rest) as (post & Hrest & Hd).
    remember (take_digits 5 rest) as d eqn:Ed.
    destruct (3 <=? _)%nat; [|done]. intros [= ->].
    exists post. rewrite <- Hrest. subst t. by repeat split. }
  induction s as [|c s IH]; cbn [re_search] in Hs.
  - destruct (match_here "") eqn:Hm; [|done]. injection Hs as ->.
    destruct (Hhere _ Hm) as (post & ? & ? & ?). by exists "", post.
  - destruct (match_here (String c s)) eqn:Hm.
    + injection Hs as ->.
      destruct (Hhere _ Hm) as (post & ? & ? & ?). by exists "", post.
    + destruct (IH Hs) as (pre & post & -> & ?). by exists (String c pre), post.
Qed.

Lemma re_search_unfold (s : string) :
  re_search s =
    match match_here s with
    | Some g => Some g
    | None => match s with EmptyString => None | String _ s' => re_search s' end
    end.
Proof. destruct s; reflexivity. Qed.

(** Wherever the phrase is followed by three digits or more, there is a
    match. *)
Lemma re_search_complete (pre d rest : string) :
  all_digits d = true → (3 <= String.length d)%nat →
  is_Some (re_search (pre ++ max_duration_phrase ++ d ++ rest)).
Proof.
  intros Hd Hlen. induction pre as [|c pre IH].
  - rewrite append_nil, re_search_unfold. unfold match_here.
    rewrite (proj2 (strip_prefix_spec _ _ (d ++ rest)) eq_refl). cbn zeta.
    pose proof (take_digits_app 5 d rest Hd) as Hmin.
    destruct (3 <=? _)%nat eqn:Hle; [by eexists|].
    apply Nat.leb_gt in Hle. lia.
  - rewrite append_cons, re_search_unfold.
    destruct (match_here _); [by eexists | exact IH].
Qed.

(** The errors the handler narrows on are the validation errors whose message
    has a match. *)
Lemma narrowing_group_Some (err : exn) (g : string) :
  narrowing_group err = Some g ↔
  ∃ msg, err = ClientError {| Error := Some {| Code := Some "ValidationError";
                                               Message := Some msg |} |}
         ∧ re_search msg = Some g.
Proof.
  split.
  - destruct err as [[[[code message]|]]| | | | | | | |]; cbn; try done.
    destruct (bool_decide _) eqn:Hcode; [|done].
    apply bool_decide_eq_true in Hcode as ->.
    destruct message as [msg|]; [|done]. cbn.
    destruct (negb _); [|done]. intros Hg. by exists msg.
  - intros (msg & -> & Hg). cbn.
    destruct msg as [|c msg]; [done|]. exact Hg.
Qed.

(** ** [assume_role], unfolded *)

Section Issue.
Context {E C : Type} `{Boto3 E C}.

Lemma endpoint_unfold (vars : StsCallVars) (st : Process E) :
  sts_client_assume_role_with_saml vars st =
    match sts_client st with
    | (inr c, st1) => call_assume_role_with_saml c vars st1
    | (inl e, st1) => (inl e, st1)
    end.
Proof. reflexivity. Qed.

(** One evaluation of the call expression adds at most one call to the log
    and leaves the broker object alone. *)
Lemma endpoint_calls (vars : StsCallVars) (st : Process E) :
  let st' := (sts_client_assume_role_with_saml vars st).2 in
  (sts_calls st' = sts_calls st ∨ sts_calls st' = (sts_calls st ++ [vars])%list)
  ∧ self st' = self st.
Proof.
  cbn zeta. rewrite endpoint_unfold.
  pose proof (sts_client_calls st) as [Hc Hs].
  destruct (sts_client st) as [[e|c] st1]; cbn [snd] in *.
  - split; [by left | done].
  - unfold call_assume_role_with_saml.
    destruct (assume_role_with_saml _ _ _) as [r e]. cbn.
    rewrite Hc. split; [by right | done].
Qed.

(** An attempt that does not negotiate is the call expression, once. *)
Lemma assume_role_fixed (role principal saml : string) (duration : option Z)
    (auto : bool) (st : Process E) :
  Config.auto_duration (config (self st)) && auto = false →
  assume_role role principal saml duration auto st =
    sts_client_assume_role_with_saml (fixed_call_vars role principal saml duration) st.
Proof.
  intros Hoff. rewrite assume_role_equation_1.
  unfold mbind, M_bind, bind, get_self. cbn zeta.
  destruct (decide _) as [Hon|_]; [congruence|].
  unfold fixed_call_vars.
  destruct (truthy_int duration); unfold mret, M_ret, ret;
    destruct (sts_client_assume_role_with_saml _ st) as [[e|t] st']; reflexivity.
Qed.

(** A negotiating attempt: the probe, and what follows each of its outcomes. *)
Lemma assume_role_probe (role principal saml : string) (duration : option Z)
    (st : Process E) :
  Config.auto_duration (config (self st)) = true →
  assume_role role principal saml duration true st =
    let vars := probe_call_vars (self st) role principal saml in
    match sts_client_assume_role_with_saml vars st with
    | (inr res, st1) => sts_client_assume_role_with_saml vars st1
    | (inl err, st1) =>
        match narrowing_group err with
        | Some g => assume_role role principal saml (Some (int g)) false st1
        | None => (inl (handler_raises err), st1)
        end
    end.
Proof.
  intros Hon. rewrite assume_role_equation_1.
  unfold mbind, M_bind, bind, get_self, try_except. cbn zeta.
  destruct (decide _) as [_|Hoff]; [|rewrite Hon in Hoff; done].
  fold (probe_call_vars (self st) role principal saml).
  destruct (sts_client_assume_role_with_saml _ st) as [[err|res] st1]; cbn.
  2: { destruct (sts_client_assume_role_with_saml _ st1) as [[e|t] st2]; reflexivity. }
  destruct err as [[[info|]]| | | | | | | |]; cbn; try reflexivity.
  destruct (bool_decide _ && truthy_str _); cbn; [|reflexivity].
  destruct (re_search _) as [g|] eqn:Hg; [|reflexivity].
  pose proof (re_search_truthy _ _ Hg) as Ht. cbn in Ht. rewrite Ht.
  destruct (assume_role _ _ _ _ false st1) as [[e|t] st2]; reflexivity.
Qed.

End Issue.

(** ** The negotiation protocol *)

Section Negotiation.
Context {E C : Type} `{Boto3 E C}.

Lemma assume_role_false (role principal saml : string) (duration : option Z)
    (st : Process E) :
  assume_role role principal saml duration false st =
    sts_client_assume_role_with_saml (fixed_call_vars role principal saml duration) st.
Proof. apply assume_role_fixed, andb_false_r. Qed.

(** C2.  An invocation of [assume_role] adds at most two calls to the log of
    the endpoint.  The attempt made after narrowing ([auto_duration=False])
    is the call expression evaluated once: whatever it returns or raises is
    the outcome, and it adds at most one call.  And a negotiating invocation
    whose probe fails with a validation error it narrows on hands over to
    that attempt: its outcome is the outcome of the one evaluation of the
    call expression for the retry, so when the retry raises, for whatever
    reason, the invocation raises the same exception in the state the retry
    left, in which the log has gained the retry's call at most. *)
Theorem assume_role_at_most_two_calls
    (role principal saml : string) (duration : option Z) (auto : bool) (st : Process E) :
  (∃ new, sts_calls (assume_role role principal saml duration auto st).2
            = (sts_calls st ++ new)%list
          ∧ (length new <= 2)%nat)
  ∧ assume_role role principal saml duration false st
      = sts_client_assume_role_with_saml (fixed_call_vars role principal saml duration) st
  ∧ (∃ new, sts_calls (assume_role role principal saml duration false st).2
              = (sts_calls st ++ new)%list
            ∧ (length new <= 1)%nat)
  ∧ (∀ (st1 : Process E) (msg g : string),
       Config.auto_duration (config (self st)) = true →
       sts_client_assume_role_with_saml (probe_call_vars (self st) role principal saml) st
         = (inl (validation_error msg), st1) →
       re_search msg = Some g →
       let retry := fixed_call_vars role principal saml (Some (int g)) in
       assume_role role principal saml duration true st
         = sts_client_assume_role_with_saml retry st1
       ∧ ∀ (e : exn) (st2 : Process E),
           sts_client_assume_role_with_saml retry st1 = (inl e, st2) →
           assume_role role principal saml duration true st = (inl e, st2)
           ∧ (sts_calls st2 = sts_calls st1
              ∨ sts_calls st2 = (sts_calls st1 ++ [retry])%list)).
Proof.
  assert (Hone : ∀ vars (s : Process E),
            ∃ new, sts_calls (sts_client_assume_role_with_saml vars s).2
                     = (sts_calls s ++ new)%list ∧ (length new <= 1)%nat).
  { intros vars s. destruct (endpoint_calls vars s) as [[Hc|Hc] _].
    - exists []. rewrite Hc, app_nil_r. by split; [|cbn; lia].
    - exists [vars]. by split; [|cbn; lia]. }
  split; [|split; [apply assume_role_false
                  |split; [rewrite assume_role_false; apply Hone|]]].
  2: { intros st1 msg g Hon Hprobe Hg retry.
       assert (Hr : assume_role role principal saml duration true st
                    = sts_client_assume_role_with_saml retry st1).
       { rewrite assume_role_probe by exact Hon. cbn zeta. rewrite Hprobe.
         rewrite (proj2 (narrowing_group_Some _ g)) by (by exists msg).
         apply assume_role_false. }
       split; [exact Hr|]. intros e st2 Hretry. rewrite Hr, Hretry. split; [done|].
       destruct (endpoint_calls retry st1) as [Hlog _]. by rewrite Hretry in Hlog. }
  destruct (Config.auto_duration (config (self st)) && auto) eqn:Hauto.
  2: { rewrite assume_role_fixed by exact Hauto.
       destruct (Hone (fixed_call_vars role principal saml duration) st) as (new & ? & ?).
       exists new. split; [done | lia]. }
  apply andb_true_iff in Hauto as [Hon ->].
  rewrite assume_role_probe by exact Hon. cbn zeta.
  set (vars := probe_call_vars (self st) role principal saml).
  destruct (Hone vars st) as (new1 & Hnew1 & Hlen1).
  destruct (sts_client_assume_role_with_saml vars st) as [[err|res] st1]; cbn [snd] in Hnew1.
  - destruct (narrowing_group err) as [g|].
    + rewrite assume_role_false.
      destruct (Hone (fixed_call_vars role principal saml (Some (int g))) st1)
        as (new2 & Hnew2 & Hlen2).
      exists (new1 ++ new2)%list. rewrite Hnew2, Hnew1, app_assoc, length_app.
      split; [done | lia].
    + exists new1. cbn [snd]. split; [done | lia].
  - destruct (Hone vars st1) as (new2 & Hnew2 & Hlen2).
    exists (new1 ++ new2)%list. rewrite Hnew2, Hnew1, app_assoc, length_app.
    split; [done | lia].
Qed.

(** When the probe succeeds the code goes on to line 153 and evaluates the
    call expression again, with the same arguments; the outcome of the
    invocation is the outcome of that second evaluation. *)
Lemma assume_role_probe_success (role principal saml : string) (duration : option Z)
    (st st1 : Process E) (res : Token) :
  Config.auto_duration (config (self st)) = true →
  sts_client_assume_role_with_saml (probe_call_vars (self st) role principal saml) st
    = (inr res, st1) →
  assume_role role principal saml duration true st
    = sts_client_assume_role_with_saml (probe_call_vars (self st) role principal saml) st1.
Proof.
  intros Hon Hprobe. rewrite assume_role_probe by exact Hon. cbn zeta.
  by rewrite Hprobe.
Qed.

(** What a failed probe leaves behind: one call in the log. *)
Lemma probe_failure_log (vars : StsCallVars) (st st1 st2 : Process E) (c : C) (r : exn + Token) :
  sts_client st = (inr c, st1) →
  call_assume_role_with_saml c vars st1 = (r, st2) →
  sts_calls st2 = (sts_calls st ++ [vars])%list
  ∧ r = (assume_role_with_saml c vars (ext st1)).1.
Proof.
  intros Hclient Hcall. pose proof (sts_client_calls st) as [Hc _].
  rewrite Hclient in Hc. cbn [snd] in Hc.
  unfold call_assume_role_with_saml in Hcall.
  destruct (assume_role_with_saml _ _ _) as [r' e]. injection Hcall as <- <-.
  cbn. by rewrite Hc.
Qed.

(** After a failed probe: one more evaluation of the call expression when the
    handler narrows, the handler's exception otherwise. *)
Lemma assume_role_after_failed_probe
    (role principal saml : string) (duration : option Z)
    (st st1 st2 : Process E) (c : C) (err : exn) :
  Config.auto_duration (config (self st)) = true →
  sts_client st = (inr c, st1) →
  call_assume_role_with_saml c (probe_call_vars (self st) role principal saml) st1
    = (inl err, st2) →
  assume_role role principal saml duration true st =
    match narrowing_group err with
    | Some g =>
        sts_client_assume_role_with_saml
          (fixed_call_vars role principal saml (Some (int g))) st2
    | None => (inl (handler_raises err), st2)
    end.
Proof.
  intros Hon Hclient Hcall. rewrite assume_role_probe by exact Hon. cbn zeta.
  rewrite endpoint_unfold, Hclient, Hcall.
  destruct (narrowing_group err); [apply assume_role_false | reflexivity].
Qed.

(** C3, as the code has it.  Adaptive negotiation is on, the client is built
    and the probe call raises [err].  If [err] is a [ClientError] with code
    [ValidationError] whose message has a match of the pattern, with group
    [g], the outcome is that of one evaluation of the call expression with
    duration [int g] (left out of the call when it is zero); when that
    evaluation gets its client, the log holds the probe and this call, two
    calls, and the outcome is the endpoint's answer to the second.  If [err]
    is no such error, and is not a [ClientError] without an ["Error"] entry,
    it is raised as it is and the log holds the probe alone. *)
Theorem assume_role_probe_failure
    (role principal saml : string) (duration : option Z)
    (st st1 st2 : Process E) (c : C) (err : exn) :
  Config.auto_duration (config (self st)) = true →
  sts_client st = (inr c, st1) →
  call_assume_role_with_saml c (probe_call_vars (self st) role principal saml) st1
    = (inl err, st2) →
  let probe := probe_call_vars (self st) role principal saml in
  let r := assume_role role principal saml duration true st in
  (∀ msg g, err = validation_error msg → re_search msg = Some g →
     let retry := fixed_call_vars role principal saml (Some (int g)) in
     r = sts_client_assume_role_with_saml retry st2
     ∧ DurationSeconds retry = (if int g =? 0 then None else Some (int g))
     ∧ ∀ c2 st3, sts_client st2 = (inr c2, st3) →
         sts_calls r.2 = (sts_calls st ++ [probe; retry])%list
         ∧ r.1 = (assume_role_with_saml c2 retry (ext st3)).1)
  ∧ ((∀ msg g, err = validation_error msg → re_search msg = Some g → False) →
     err ≠ ClientError {| Error := None |} →
     r = (inl err, st2) ∧ sts_calls r.2 = (sts_calls st ++ [probe])%list).
Proof.
  intros Hon Hclient Hcall probe r.
  destruct (probe_failure_log _ _ _ _ _ _ Hclient Hcall) as [Hlog _].
  pose proof (assume_role_after_failed_probe role principal saml duration
                _ _ _ _ _ Hon Hclient Hcall) as Hr.
  fold r in Hr.
  split.
  - intros msg g -> Hg retry.
    rewrite (proj2 (narrowing_group_Some _ g)) in Hr by (by exists msg).
    fold retry in Hr.
    split; [exact Hr|]. split.
    { unfold retry, fixed_call_vars, truthy_int. cbn [DurationSeconds].
      by destruct (int g =? 0). }
    intros c2 st3 Hclient2. rewrite Hr, endpoint_unfold, Hclient2.
    destruct (call_assume_role_with_saml c2 retry st3) as [r2 st4] eqn:Hcall2.
    destruct (probe_failure_log _ _ _ _ _ _ Hclient2 Hcall2) as [Hlog2 Hr2].
    cbn [fst snd]. rewrite Hlog2, Hlog, <- app_assoc. by split.
  - intros Hno Hentry.
    destruct (narrowing_group err) as [g|] eqn:Hg.
    { apply narrowing_group_Some in Hg as (msg & -> & Hg). by destruct (Hno msg g). }
    assert (handler_raises err = err) as Hsame.
    { destruct err as [[[info|]]| | | | | | | |]; done. }
    rewrite Hsame in Hr. rewrite Hr. by split.
Qed.

(** C10, as the code has it.  Adaptive negotiation is on, the client is built
    and the probe call raises [err].  A second call is made only if [err] is a
    [ClientError] with code [ValidationError] whose message holds the phrase
    followed by a run [g] of three to five digits, the longest the text
    allows up to five; the retry then asks for [int g].  A [ClientError] with
    an ["Error"] entry whose code differs, or in whose message the phrase is
    nowhere followed by three digits, is raised as it is after the probe
    alone. *)
Theorem narrowing_preconditions
    (role principal saml : string) (duration : option Z)
    (st st1 st2 : Process E) (c : C) (err : exn) :
  Config.auto_duration (config (self st)) = true →
  sts_client st = (inr c, st1) →
  call_assume_role_with_saml c (probe_call_vars (self st) role principal saml) st1
    = (inl err, st2) →
  let probe := probe_call_vars (self st) role principal saml in
  let r := assume_role role principal saml duration true st in
  ((length (sts_calls st) + 1 < length (sts_calls r.2))%nat →
     ∃ msg pre g post,
       err = validation_error msg
       ∧ msg = pre ++ max_duration_phrase ++ g ++ post
       ∧ all_digits g = true ∧ (3 <= String.length g <= 5)%nat
       ∧ take_digits 5 (g ++ post) = g
       ∧ r = sts_client_assume_role_with_saml
               (fixed_call_vars role principal saml (Some (int g))) st2)
  ∧ (∀ info, err = ClientError {| Error := Some info |} →
       Code info ≠ Some "ValidationError"
       ∨ (∀ msg pre d rest, Message info = Some msg →
            msg = pre ++ max_duration_phrase ++ d ++ rest →
            all_digits d = true → (String.length d < 3)%nat) →
       r = (inl err, st2) ∧ sts_calls r.2 = (sts_calls st ++ [probe])%list).
Proof.
  intros Hon Hclient Hcall probe r.
  pose proof (assume_role_after_failed_probe role principal saml duration
                _ _ _ _ _ Hon Hclient Hcall) as Hr.
  fold r in Hr.
  destruct (probe_failure_log _ _ _ _ _ _ Hclient Hcall) as [Hlog _].
  split.
  - intros Hmore.
    destruct (narrowing_group err) as [g|] eqn:Hg.
    + apply narrowing_group_Some in Hg as (msg & -> & Hg).
      destruct (re_search_sound _ _ Hg) as (pre & post & Hmsg & Hd & Hlen & Htake).
      by exists msg, pre, g, post.
    + exfalso. rewrite Hr in Hmore. cbn [snd] in Hmore.
      rewrite Hlog, length_app in Hmore. cbn in Hmore. lia.
  - intros info -> Hcond.
    destruct (narrowing_group _) as [g|] eqn:Hg.
    + exfalso. apply narrowing_group_Some in Hg as (msg & [= ->] & Hg).
      destruct Hcond as [Hcode|Hshort]; [by apply Hcode|].
      destruct (re_search_sound _ _ Hg) as (pre & post & Hmsg & Hd & Hlen & _).
      specialize (Hshort msg pre g post eq_refl Hmsg Hd). lia.
    + rewrite Hr. by split.
Qed.

End Negotiation.

(** C1 (the code at the failing input).  Adaptive negotiation is on and the
    endpoint accepts the probe, answering its first call with the credential
    [first] and its second with [second]: [assume_role] calls the endpoint
    twice with the same arguments and returns [second]. *)
Lemma assume_role_probe_success_calls_twice :
  let st := example_process ∅
              {| constructions := [];
                 responses := [inr (credentials_of "first"); inr (credentials_of "second")] |} in
  let r := @assume_role _ _ scripted "arn:aws:iam::111111111111:role/Foo"
             "arn:aws:iam::111111111111:saml-provider/Bar" "PGEvPng=" (Some 3600) true st in
  r.1 = inr (credentials_of "second")
  ∧ sts_calls r.2 = [probe_vars; probe_vars].
Proof.
  cbn zeta. rewrite assume_role_probe by reflexivity. vm_compute. done.
Qed.

(** The narrowed retry is refused as well, with a message that names a bound
    again: no third call is made and the retry's error is what comes out. *)
Lemma assume_role_retry_failure_propagates :
  let first := "Member must have value less than or equal to 28800" in
  let second := "Member must have value less than or equal to 3600" in
  let st := example_process ∅
              {| constructions := [];
                 responses := [inl (validation_error first); inl (validation_error second);
                               inr (credentials_of "third")] |} in
  let r := @assume_role _ _ scripted "arn:aws:iam::111111111111:role/Foo"
             "arn:aws:iam::111111111111:saml-provider/Bar" "PGEvPng=" (Some 3600) true st in
  r.1 = inl (validation_error second)
  ∧ sts_calls r.2 =
      [probe_vars;
       {| RoleArn := "arn:aws:iam::111111111111:role/Foo";
          PrincipalArn := "arn:aws:iam::111111111111:saml-provider/Bar";
          SAMLAssertion := "PGEvPng="; DurationSeconds := Some 28800 |}].
Proof.
  cbn zeta.
  set (first := "Member must have value less than or equal to 28800").
  set (second := "Member must have value less than or equal to 3600").
  set (st := example_process ∅ _).
  pose (st1 := (@sts_client_assume_role_with_saml _ _ scripted probe_vars st).2).
  destruct (@assume_role_at_most_two_calls _ _ scripted
              "arn:aws:iam::111111111111:role/Foo"
              "arn:aws:iam::111111111111:saml-provider/Bar" "PGEvPng=" (Some 3600) true st)
    as (_ & _ & _ & Hretry).
  destruct (Hretry st1 first "28800" eq_refl eq_refl eq_refl) as [_ Hfail].
  destruct (Hfail (validation_error second)
              (@sts_client_assume_role_with_saml _ _ scripted
                 (fixed_call_vars "arn:aws:iam::111111111111:role/Foo"
                    "arn:aws:iam::111111111111:saml-provider/Bar" "PGEvPng=" (Some 28800))
                 st1).2 eq_refl) as [Hr _].
  rewrite Hr. split; reflexivity.
Defined.

(** *** The protocol on scripted endpoints *)

(** C3 as stated fails.  The endpoint rejects the probe with a validation
    error whose message carries the bound 60, which the pattern of the
    specification matches; the code makes no second call and raises the
    error. *)
Lemma assume_role_no_narrowing_on_two_digits :
  let msg := "Member must have value less than or equal to 60" in
  let st := example_process ∅
              {| constructions := [];
                 responses := [inl (validation_error msg); inr (credentials_of "second")] |} in
  let r := @assume_role _ _ scripted "arn:aws:iam::111111111111:role/Foo"
             "arn:aws:iam::111111111111:saml-provider/Bar" "PGEvPng=" (Some 3600) true st in
  spec_bound msg = Some 60
  ∧ r.1 = inl (validation_error msg)
  ∧ sts_calls r.2 = [probe_vars].
Proof.
  cbn zeta. rewrite assume_role_probe by reflexivity. vm_compute. done.
Qed.

(** The example of the specification: the endpoint rejects 43200 naming the
    bound 28800 and accepts 28800; two calls, and the credential of the
    second is returned. *)
Lemma assume_role_narrows_to_28800 :
  let msg := "1 validation error detected: Value '43200' at 'durationSeconds' failed to satisfy constraint: Member must have value less than or equal to 28800" in
  let st := example_process ∅
              {| constructions := [];
                 responses := [inl (validation_error msg); inr (credentials_of "second")] |} in
  let r := @assume_role _ _ scripted "arn:aws:iam::111111111111:role/Foo"
             "arn:aws:iam::111111111111:saml-provider/Bar" "PGEvPng=" (Some 3600) true st in
  r.1 = inr (credentials_of "second")
  ∧ sts_calls r.2 =
      [probe_vars;
       {| RoleArn := "arn:aws:iam::111111111111:role/Foo";
          PrincipalArn := "arn:aws:iam::111111111111:saml-provider/Bar";
          SAMLAssertion := "PGEvPng="; DurationSeconds := Some 28800 |}].
Proof.
  cbn zeta.
  set (msg := "1 validation error detected: Value '43200' at 'durationSeconds' failed to satisfy constraint: Member must have value less than or equal to 28800").
  set (st := example_process ∅ _).
  pose (st2 := (@call_assume_role_with_saml _ _ scripted tt probe_vars st).2).
  destruct (@assume_role_probe_failure _ _ scripted
              "arn:aws:iam::111111111111:role/Foo"
              "arn:aws:iam::111111111111:saml-provider/Bar" "PGEvPng=" (Some 3600)
              st st st2 tt (validation_error msg) eq_refl eq_refl eq_refl)
    as [Hnarrow _].
  destruct (Hnarrow msg "28800" eq_refl eq_refl) as (_ & _ & Htwo).
  destruct (Htwo tt st2 eq_refl) as [Hcalls Hres].
  split; [rewrite Hres | rewrite Hcalls]; reflexivity.
Defined.

(** C10 as stated fails.  The message carries a bound of six digits, 129600;
    the pattern matches its first five and the code narrows: a second call is
    made, asking for 12960 seconds. *)
Lemma assume_role_narrows_on_six_digits :
  let msg := "Member must have value less than or equal to 129600" in
  let st := example_process ∅
              {| constructions := [];
                 responses := [inl (validation_error msg); inr (credentials_of "second")] |} in
  let r := @assume_role _ _ scripted "arn:aws:iam::111111111111:role/Foo"
             "arn:aws:iam::111111111111:saml-provider/Bar" "PGEvPng=" (Some 3600) true st in
  spec_bound msg = Some 129600
  ∧ r.1 = inr (credentials_of "second")
  ∧ sts_calls r.2 =
      [probe_vars;
       {| RoleArn := "arn:aws:iam::111111111111:role/Foo";
          PrincipalArn := "arn:aws:iam::111111111111:saml-provider/Bar";
          SAMLAssertion := "PGEvPng="; DurationSeconds := Some 12960 |}].
Proof.
  cbn zeta.
  set (st := example_process ∅ _).
  pose (st2 := (@call_assume_role_with_saml _ _ scripted tt probe_vars st).2).
  rewrite (@assume_role_after_failed_probe _ _ scripted _ _ _ _ st st st2 tt _
             eq_refl eq_refl eq_refl).
  vm_compute. done.
Qed.

(** An error with another code is raised after the probe alone, whatever its
    message. *)
Lemma assume_role_other_code_propagates :
  let err := ClientError {| Error := Some {| Code := Some "AccessDenied";
       Message := Some "Member must have value less than or equal to 28800" |} |} in
  let st := example_process ∅
              {| constructions := [];
                 responses := [inl err; inr (credentials_of "second")] |} in
  let r := @assume_role _ _ scripted "arn:aws:iam::111111111111:role/Foo"
             "arn:aws:iam::111111111111:saml-provider/Bar" "PGEvPng=" (Some 3600) true st in
  r.1 = inl err ∧ sts_calls r.2 = [probe_vars].
Proof.
  cbn zeta.
  set (err := ClientError _).
  set (st := example_process ∅ _).
  pose (st2 := (@call_assume_role_with_saml _ _ scripted tt probe_vars st).2).
  destruct (@narrowing_preconditions _ _ scripted
              "arn:aws:iam::111111111111:role/Foo"
              "arn:aws:iam::111111111111:saml-provider/Bar" "PGEvPng=" (Some 3600)
              st st st2 tt err eq_refl eq_refl eq_refl)
    as [_ Hplain].
  destruct (Hplain _ eq_refl) as [Hr Hcalls].
  { left. cbn. discriminate. }
  split; [rewrite Hr | rewrite Hcalls]; reflexivity.
Defined.

(** ** The memoized credential *)

Section Memo.
Context {E C : Type} `{Boto3 E C}.

(** With a token in place, [token] returns it and touches nothing. *)
Lemma token_cached (st : Process E) (t : Token) :
  __token (self st) = Some t → token st = (inr t, st).
Proof.
  intros Ht. unfold token, mbind, M_bind, bind, get_self. by rewrite Ht.
Qed.

(** A [token] that returns has put what it returns in [__token]. *)
Lemma token_stores (st st' : Process E) (t : Token) :
  token st = (inr t, st') → __token (self st') = Some t.
Proof.
  unfold token, mbind, M_bind, bind, get_self, lift, set_token, mret, M_ret, ret.
  destruct (__token (self st)) as [t0|] eqn:Ht0.
  - intros [= <- <-]. exact Ht0.
  - destruct (base64_encoded_saml (self st)) as [e|saml]; [done|].
    destruct (assume_role _ _ _ _ _ _) as [[e|t1] st1]; [done|].
    by intros [= <- <-].
Qed.

Lemma perform_cached (a : access) (st : Process E) (t : Token) :
  __token (self st) = Some t → perform a st = (value_of a t, st).
Proof.
  intros Ht.
  destruct a; unfold perform, access_key_id, secret_access_key, session_token,
    expiration, mbind, M_bind, bind; rewrite (token_cached _ _ Ht);
    unfold lift, value_of, mbind, exn_bind; try reflexivity;
    destruct (dict_getitem _ _); reflexivity.
Qed.

Lemma perform_stores (a : access) (st st' : Process E) (r : Token + pyval) :
  perform a st = (inr r, st') →
  ∃ t, __token (self st') = Some t ∧ value_of a t = inr r.
Proof.
  assert (Hderived : ∀ key (v : pyval),
    (t ← token; lift (dict_getitem (Credentials t) key)) st = (inr v, st') →
    ∃ t, __token (self st') = Some t ∧ dict_getitem (Credentials t) key = inr v).
  { intros key v. unfold mbind, M_bind, bind, lift.
    destruct (token st) as [[e|t] st1] eqn:Htok; [done|].
    intros [= Hv <-]. exists t. split; [by eapply token_stores | done]. }
  destruct a; cbn [perform value_of]; unfold mbind at 1, M_bind at 1, bind at 1.
  - destruct (token st) as [[e|t] st1] eqn:Htok; [done|].
    intros [= <- <-]. exists t. split; [by eapply token_stores | done].
  - unfold access_key_id.
    destruct ((t ← token; lift (dict_getitem (Credentials t) "AccessKeyId")) st)
      as [[e|v] st1] eqn:Hd; [done|].
    intros [= <- <-]. destruct (Hderived _ _ Hd) as (t & ? & Hv).
    exists t. split; [done|]. unfold mbind, exn_bind. by rewrite Hv.
  - unfold secret_access_key.
    destruct ((t ← token; lift (dict_getitem (Credentials t) "SecretAccessKey")) st)
      as [[e|v] st1] eqn:Hd; [done|].
    intros [= <- <-]. destruct (Hderived _ _ Hd) as (t & ? & Hv).
    exists t. split; [done|]. unfold mbind, exn_bind. by rewrite Hv.
  - unfold session_token.
    destruct ((t ← token; lift (dict_getitem (Credentials t) "SessionToken")) st)
      as [[e|v] st1] eqn:Hd; [done|].
    intros [= <- <-]. destruct (Hderived _ _ Hd) as (t & ? & Hv).
    exists t. split; [done|]. unfold mbind, exn_bind. by rewrite Hv.
  - unfold expiration.
    destruct ((t ← token; lift (dict_getitem (Credentials t) "Expiration")) st)
      as [[e|v] st1] eqn:Hd; [done|].
    intros [= <- <-]. destruct (Hderived _ _ Hd) as (t & ? & Hv).
    exists t. split; [done|]. unfold mbind, exn_bind. by rewrite Hv.
Qed.

Lemma perform_all_cached (l : list access) (st : Process E) (t : Token) :
  __token (self st) = Some t → perform_all l st = st.
Proof.
  intros Ht. induction l as [|a l IH]; [done|].
  unfold perform_all in *. cbn [foldl]. by rewrite (perform_cached a st t Ht).
Qed.

(** C5.  Once an access to the credential has returned, the broker holds a
    token [t] from which that value was read, and from then on every access
    returns what it reads off [t] and leaves the whole state, the log of
    endpoint calls included, as it is, however many accesses follow.  A
    broker constructed from a token cache holds the cached credential from
    the start, so no access to it ever reaches the endpoint. *)
Theorem credential_materialized_once :
  (∀ (a : access) (st st' : Process E) (r : Token + pyval),
     perform a st = (inr r, st') →
     ∃ t, value_of a t = inr r
          ∧ (∀ b, perform b st' = (value_of b t, st'))
          ∧ (∀ l, perform_all l st' = st'))
  ∧ (∀ (cfg : Config.t) (saml : option string) env log (e : E) (cache : gmap string pyval),
       Config.token_cache cfg = Some cache → cache ≠ ∅ →
       let st := {| self := Amazon_init cfg saml; environ := env;
                    sts_calls := log; ext := e |} in
       (∀ b, perform b st = (value_of b {| Credentials := cache |}, st))
       ∧ (∀ l, perform_all l st = st ∧ sts_calls (perform_all l st) = log)).
Proof.
  split.
  - intros a st st' r Ha. destruct (perform_stores _ _ _ _ Ha) as (t & Ht & Hv).
    exists t. split; [done|]. split.
    + intros b. by apply perform_cached.
    + intros l. by eapply perform_all_cached.
  - intros cfg saml env log e cache Hcache Hne st.
    assert (Ht : __token (self st) = Some {| Credentials := cache |}).
    { subst st. unfold Amazon_init, truthy_dict. rewrite Hcache.
      by rewrite bool_decide_eq_false_2. }
    split.
    + intros b. by apply perform_cached.
    + intros l. rewrite (perform_all_cached l st _ Ht). by split.
Qed.

End Memo.

(** The first access fetches the credential (with the two calls of a
    successful probe); the accesses after it read the same token and leave
    the state alone. *)
Lemma credential_fetched_once :
  let st := example_process ∅
              {| constructions := [];
                 responses := [inr (credentials_of "first"); inr (credentials_of "second")] |} in
  let st' := (@perform _ _ scripted GetToken st).2 in
  sts_calls st' = [probe_vars; probe_vars]
  ∧ @perform _ _ scripted GetAccessKeyId st' = (inr (inr (PyStr "second")), st')
  ∧ @perform_all _ _ scripted [GetToken; GetAccessKeyId; GetExpiration] st' = st'.
Proof.
  cbn zeta.
  set (st := example_process ∅ _).
  destruct (@credential_materialized_once _ _ scripted) as [Hmemo _].
  destruct (Hmemo GetToken st (@perform _ _ scripted GetToken st).2
              (inl (credentials_of "second")) eq_refl) as (t & Hv & Hb & Hall).
  injection Hv as ->.
  split; [reflexivity|]. split; [apply (Hb GetAccessKeyId) | apply Hall].
Defined.

(** ** The validity window *)

Section Validator.
Context `{Lxml} `{Strptime}.

(** With the document parsed, its first [Conditions] element found and both
    timestamps read, the answer is the window test. *)
Lemma is_valid_saml_assertion_window (now : datetime) (xml : string) (doc c : node)
    (nb_str noa_str : string) (not_before not_on_or_after : datetime) :
  fromstring xml = inr doc →
  iter conditions_tag doc !! 0%nat = Some c →
  get c "NotBefore" = Some nb_str →
  get c "NotOnOrAfter" = Some noa_str →
  strptime nb_str timestamp_format = inr not_before →
  strptime noa_str timestamp_format = inr not_on_or_after →
  is_valid_saml_assertion now (Some xml)
    = (not_before <=? now) && (now <? not_on_or_after).
Proof.
  intros Hdoc Hc Hnb Hnoa Hpnb Hpnoa.
  unfold is_valid_saml_assertion, is_valid_saml_assertion_try, mbind, exn_bind,
    list_getitem, strptime_arg.
  rewrite Hdoc, Hc, Hnb, Hnoa, Hpnb, Hpnoa.
  by destruct ((not_before <=? now) && (now <? not_on_or_after)).
Qed.

(** C4.  [is_valid_saml_assertion] is a total function to [bool].  It answers
    [true] exactly when the input is present and parses, the document has a
    [Conditions] element, the first one carries both timestamps, both are
    accepted by [strptime], and [not_before <= now < not_on_or_after]; in
    every other case it answers [false].  At [now = not_on_or_after] the
    answer is [false]; at [now = not_before] it is [true] when the window is
    not empty. *)
Theorem is_valid_saml_assertion_spec :
  (∀ (now : datetime) (saml_xml : option string),
     is_valid_saml_assertion now saml_xml = true ↔
     ∃ xml doc c nb_str noa_str not_before not_on_or_after,
       saml_xml = Some xml
       ∧ fromstring xml = inr doc
       ∧ iter conditions_tag doc !! 0%nat = Some c
       ∧ get c "NotBefore" = Some nb_str
       ∧ get c "NotOnOrAfter" = Some noa_str
       ∧ strptime nb_str timestamp_format = inr not_before
       ∧ strptime noa_str timestamp_format = inr not_on_or_after
       ∧ not_before <= now < not_on_or_after)
  ∧ (∀ xml doc c nb_str noa_str not_before not_on_or_after,
       fromstring xml = inr doc →
       iter conditions_tag doc !! 0%nat = Some c →
       get c "NotBefore" = Some nb_str →
       get c "NotOnOrAfter" = Some noa_str →
       strptime nb_str timestamp_format = inr not_before →
       strptime noa_str timestamp_format = inr not_on_or_after →
       is_valid_saml_assertion not_on_or_after (Some xml) = false
       ∧ (not_before < not_on_or_after →
          is_valid_saml_assertion not_before (Some xml) = true)).
Proof.
  split.
  - intros now saml_xml. split.
    + destruct saml_xml as [xml|]; [|done].
      unfold is_valid_saml_assertion, is_valid_saml_assertion_try, mbind, exn_bind,
        list_getitem, strptime_arg.
      destruct (fromstring xml) as [e|doc] eqn:Hdoc; [done|].
      destruct (iter conditions_tag doc !! 0%nat) as [c|] eqn:Hc; [|done].
      destruct (get c "NotBefore") as [nb_str|] eqn:Hnb; [|done].
      destruct (get c "NotOnOrAfter") as [noa_str|] eqn:Hnoa;
        [|by destruct (strptime nb_str timestamp_format)].
      destruct (strptime nb_str timestamp_format) as [e|not_before] eqn:Hpnb; [done|].
      destruct (strptime noa_str timestamp_format) as [e|not_on_or_after] eqn:Hpnoa;
        [done|].
      destruct ((not_before <=? now) && (now <? not_on_or_after)) eqn:Hwin; [|done].
      intros _. apply andb_true_iff in Hwin as [Hle Hlt].
      exists xml, doc, c, nb_str, noa_str, not_before, not_on_or_after.
      repeat split; try done; lia.
    + intros (xml & doc & c & nb_str & noa_str & not_before & not_on_or_after
              & -> & Hdoc & Hc & Hnb & Hnoa & Hpnb & Hpnoa & Hle & Hlt).
      rewrite (is_valid_saml_assertion_window _ _ _ _ _ _ _ _
                 Hdoc Hc Hnb Hnoa Hpnb Hpnoa).
      apply andb_true_iff. split; lia.
  - intros xml doc c nb_str noa_str not_before not_on_or_after
      Hdoc Hc Hnb Hnoa Hpnb Hpnoa.
    rewrite !(is_valid_saml_assertion_window _ _ _ _ _ _ _ _
                Hdoc Hc Hnb Hnoa Hpnb Hpnoa).
    split.
    + rewrite Z.ltb_irrefl. apply andb_false_r.
    + intros Hlt. apply andb_true_iff. split; lia.
Qed.

End Validator.

(** An assertion valid from 12:00:00 to 12:05:00 (in microseconds of the
    day): valid at the first instant, invalid at the last. *)
Lemma is_valid_saml_assertion_bounds :
  let xml := "<samlp:Response>...</samlp:Response>" in
  let parser := parser_of
    [(xml, example_document "2024-01-01T12:00:00.000000Z" "2024-01-01T12:05:00.000000Z" [])] in
  let clock := strptime_of
    [("2024-01-01T12:00:00.000000Z", 43200000000);
     ("2024-01-01T12:05:00.000000Z", 43500000000)] in
  @is_valid_saml_assertion parser clock 43500000000 (Some xml) = false
  ∧ @is_valid_saml_assertion parser clock 43200000000 (Some xml) = true.
Proof.
  cbn zeta.
  set (xml := "<samlp:Response>...</samlp:Response>").
  set (doc := example_document _ _ _).
  set (clock := strptime_of _).
  destruct (@is_valid_saml_assertion_spec (parser_of [(xml, doc)]) clock) as [_ Hbounds].
  destruct (Hbounds xml doc
              (Element conditions_tag
                 [("NotBefore", "2024-01-01T12:00:00.000000Z");
                  ("NotOnOrAfter", "2024-01-01T12:05:00.000000Z")] [])
              "2024-01-01T12:00:00.000000Z" "2024-01-01T12:05:00.000000Z"
              43200000000 43500000000 eq_refl eq_refl eq_refl eq_refl eq_refl eq_refl)
    as [Hupper Hlower].
  split; [exact Hupper | apply Hlower; reflexivity].
Defined.

(** ** Role extraction *)

Lemma split_not_nil (sep : ascii) (s : string) : split sep s ≠ [].
Proof.
  destruct s as [|c s]; cbn; [done|].
  destruct (Ascii.eqb c sep); [done|]. by destruct (split sep s).
Qed.

(** A second field exists exactly when the separator occurs. *)
Lemma split_second_field (sep : ascii) (s : string) :
  is_Some (split sep s !! 1%nat) ↔ contains (String sep "") s = true.
Proof.
  induction s as [|c s IH]; cbn [split contains String.prefix].
  - split; [by intros [? ?] | done].
  - destruct (ascii_dec sep c) as [<-|Hne].
    + rewrite Ascii.eqb_refl.
      replace (String.prefix "" s) with true by (by destruct s).
      pose proof (split_not_nil sep s). destruct (split sep s); [done|].
      split; [done | by eexists].
    + rewrite (proj2 (Ascii.eqb_neq c sep)) by congruence.
      rewrite orb_false_l, <- IH.
      pose proof (split_not_nil sep s). by destruct (split sep s).
Qed.

Lemma roles_step_marked (roles : gmap string string) (x k v : string) (rest : list string) :
  has_iam_marker x = true → split "," x = k :: v :: rest →
  roles_step roles x = inr (<[k := v]> roles).
Proof.
  intros Hm Hs. unfold roles_step. by rewrite Hm, Hs.
Qed.

Lemma roles_step_unmarked (roles : gmap string string) (x : string) :
  has_iam_marker x = false → roles_step roles x = inr roles.
Proof. intros Hm. unfold roles_step. by rewrite Hm. Qed.

(** A marked node without a comma raises [IndexError]; nothing else raises. *)
Lemma roles_step_raises (roles : gmap string string) (x : string) (e : exn) :
  roles_step roles x = inl e ↔
  has_iam_marker x = true ∧ contains "," x = false ∧ e = IndexError.
Proof.
  unfold roles_step, list_getitem, mbind, exn_bind.
  destruct (has_iam_marker x); [|split; [done | by intros (? & _)]].
  pose proof (split_second_field "," x) as Hsecond.
  pose proof (split_not_nil "," x) as Hnil.
  destruct (split "," x) as [|k [|v rest]]; [done| |]; cbn in *.
  - destruct (contains "," x).
    + destruct (proj2 Hsecond eq_refl) as [? [=]].
    + split; [by intros [= <-] | by intros (_ & _ & ->)].
  - destruct (contains "," x); [by split; [|intros (_ & ? & _)]|].
    destruct Hsecond as [Hsecond _]. by specialize (Hsecond (mk_is_Some _ _ eq_refl)).
Qed.

Lemma for_each_roles_step (xs : list string) (roles : gmap string string) :
  Forall (fun x => has_iam_marker x = true → contains "," x = true) xs →
  for_each roles_step roles xs =
    inr (foldl (fun roles x =>
                  if has_iam_marker x
                  then <[default "" (split "," x !! 0%nat)
                           := default "" (split "," x !! 1%nat)]> roles
                  else roles) roles xs).
Proof.
  intros Hxs. revert roles. induction Hxs as [|x xs Hx _ IH]; intros roles; [done|].
  cbn [for_each foldl]. destruct (has_iam_marker x) eqn:Hm.
  - apply split_second_field in Hx as [v Hv]; [|done].
    destruct (split "," x) as [|k [|v' rest]] eqn:Hs; [done|done|].
    injection Hv as ->. rewrite (roles_step_marked _ _ _ _ _ Hm Hs). apply IH.
  - rewrite (roles_step_unmarked _ _ Hm). apply IH.
Qed.

Lemma for_each_roles_step_raises (xs : list string) (roles : gmap string string) :
  Exists (fun x => has_iam_marker x = true ∧ contains "," x = false) xs →
  for_each roles_step roles xs = inl IndexError.
Proof.
  intros Hxs. revert roles. induction xs as [|x xs IH]; intros roles.
  - by apply Exists_nil in Hxs.
  - cbn [for_each]. destruct (roles_step roles x) as [e|roles'] eqn:Hstep.
    + by apply roles_step_raises in Hstep as (_ & _ & ->).
    + apply Exists_cons in Hxs as [[Hm Hc]|Hxs]; [|by apply IH].
      assert (roles_step roles x = inl IndexError) as Hr by by apply roles_step_raises.
      congruence.
Qed.

Lemma split_one_field (sep : ascii) (s : string) :
  length (split sep s) = 1%nat → split sep s = [s].
Proof.
  induction s as [|d s IH]; cbn [split]; [done|].
  pose proof (split_not_nil sep s).
  destruct (Ascii.eqb d sep).
  - destruct (split sep s); [done | discriminate].
  - destruct (split sep s) as [|f fs]; [done|].
    cbn [length] in *. intros Hlen. by injection (IH Hlen) as -> ->.
Qed.

(** On a text with exactly one comma, splitting once and splitting at every
    comma give the same two fields. *)
Lemma split_once_one_comma (sep : ascii) (s : string) :
  length (split sep s) = 2%nat → split_once sep s = split sep s.
Proof.
  induction s as [|c s IH]; cbn [split split_once]; [done|].
  destruct (Ascii.eqb c sep).
  - cbn [length]. intros [= Hlen]. by rewrite (split_one_field _ _ Hlen).
  - pose proof (split_not_nil sep s).
    destruct (split sep s) as [|f fs] eqn:Hs; [done|].
    cbn [length]. intros Hlen. by rewrite (IH Hlen).
Qed.

Section Roles.
Context `{Lxml}.

(** C6, as the code has it.  A text node with a marker binds the first field
    of its split at every comma to the second, wherever the marker is, and a
    node without a marker binds nothing; when every marked node has a comma,
    [roles] returns the mapping built this way from the text nodes under the
    role attribute, in document order; without such nodes the mapping is
    empty.  A node that is one key, one comma and one value is split the same
    way by splitting once. *)
Theorem roles_mapping :
  (∀ (roles : gmap string string) (x k v : string) (rest : list string),
     has_iam_marker x = true → split "," x = k :: v :: rest →
     roles_step roles x = inr (<[k := v]> roles))
  ∧ (∀ (roles : gmap string string) (x : string),
       has_iam_marker x = false → roles_step roles x = inr roles)
  ∧ (∀ (this : Amazon) (xml : string) (doc : node),
       saml_xml this = Some xml → fromstring xml = inr doc →
       Forall (fun x => has_iam_marker x = true → contains "," x = true)
              (xpath_Name_text role_attribute doc) →
       roles this = inr (roles_of_texts (xpath_Name_text role_attribute doc)))
  ∧ (∀ (this : Amazon) (xml : string) (doc : node),
       saml_xml this = Some xml → fromstring xml = inr doc →
       xpath_Name_text role_attribute doc = [] → roles this = inr ∅)
  ∧ (∀ x : string, length (split "," x) = 2%nat → split_once "," x = split "," x).
Proof.
  split; [exact roles_step_marked|]. split; [exact roles_step_unmarked|].
  split; [|split; [|exact (split_once_one_comma ",")]].
  - intros this xml doc Hxml Hdoc Hall. unfold roles, mbind, exn_bind.
    rewrite Hxml, Hdoc. by apply for_each_roles_step.
  - intros this xml doc Hxml Hdoc Hnone. unfold roles, mbind, exn_bind.
    by rewrite Hxml, Hdoc, Hnone.
Qed.

(** C7, as the code has it.  For an input that parses, [roles] returns a
    mapping exactly when every text node under the role attribute that has a
    marker also has a comma; when one of them has none, [roles] raises
    [IndexError]. *)
Theorem roles_raises_on_missing_comma (this : Amazon) (xml : string) (doc : node) :
  saml_xml this = Some xml → fromstring xml = inr doc →
  let texts := xpath_Name_text role_attribute doc in
  (Forall (fun x => has_iam_marker x = true → contains "," x = true) texts →
   roles this = inr (roles_of_texts texts))
  ∧ (Exists (fun x => has_iam_marker x = true ∧ contains "," x = false) texts →
     roles this = inl IndexError).
Proof.
  intros Hxml Hdoc texts. unfold roles, mbind, exn_bind. rewrite Hxml, Hdoc.
  split; [apply for_each_roles_step | apply for_each_roles_step_raises].
Qed.

End Roles.

(** *** Role extraction on example documents *)

(** The example of the specification: one attribute value, a role and a
    provider; the mapping has exactly that binding. *)
Lemma roles_example :
  let xml := "<samlp:Response>...</samlp:Response>" in
  let doc := example_document "" ""
    ["arn:aws:iam::111111111111:role/Foo,arn:aws:iam::111111111111:saml-provider/Bar"] in
  @roles (parser_of [(xml, doc)]) (Amazon_init example_config (Some xml))
  = inr {[ "arn:aws:iam::111111111111:role/Foo"
             := "arn:aws:iam::111111111111:saml-provider/Bar" ]}.
Proof.
  cbn zeta.
  set (xml := "<samlp:Response>...</samlp:Response>").
  set (doc := example_document _ _ _).
  destruct (@roles_mapping (parser_of [(xml, doc)])) as (_ & _ & Hmap & _).
  rewrite (Hmap (Amazon_init example_config (Some xml)) xml doc eq_refl eq_refl).
  - vm_compute. reflexivity.
  - constructor; [intros _; vm_compute; reflexivity | constructor].
Defined.

(** C6 as stated fails.  On an attribute value with two commas the code
    stores the second of three fields; split once, the second field would be
    everything after the first comma. *)
Lemma roles_value_stops_at_second_comma :
  let x := "arn:aws:iam::111111111111:role/Foo,arn:aws:iam::111111111111:saml-provider/Bar,extra" in
  let xml := "<samlp:Response>...</samlp:Response>" in
  let doc := example_document "" "" [x] in
  @roles (parser_of [(xml, doc)]) (Amazon_init example_config (Some xml))
  = inr {[ "arn:aws:iam::111111111111:role/Foo"
             := "arn:aws:iam::111111111111:saml-provider/Bar" ]}
  ∧ split_once "," x
    = ["arn:aws:iam::111111111111:role/Foo";
       "arn:aws:iam::111111111111:saml-provider/Bar,extra"].
Proof. cbn zeta. split; vm_compute; reflexivity. Qed.

(** C7 as stated fails.  The document parses, and an attribute value that
    names a role without a comma makes [roles] raise [IndexError]. *)
Lemma roles_raises_IndexError :
  let xml := "<samlp:Response>...</samlp:Response>" in
  let doc := example_document "" "" ["arn:aws:iam::111111111111:role/Foo"] in
  @fromstring (parser_of [(xml, doc)]) xml = inr doc
  ∧ @roles (parser_of [(xml, doc)]) (Amazon_init example_config (Some xml))
    = inl IndexError.
Proof. cbn zeta. split; vm_compute; reflexivity. Qed.

(** A value without a marker is passed over, comma or not; the values with a
    marker and a comma are bound. *)
Lemma roles_skips_unmarked_text :
  let xml := "<samlp:Response>...</samlp:Response>" in
  let doc := example_document "" ""
    ["not a role";
     "arn:aws-us-gov:iam::222222222222:saml-provider/Bar,arn:aws-us-gov:iam::222222222222:role/Foo"] in
  @roles (parser_of [(xml, doc)]) (Amazon_init example_config (Some xml))
  = inr {[ "arn:aws-us-gov:iam::222222222222:saml-provider/Bar"
             := "arn:aws-us-gov:iam::222222222222:role/Foo" ]}.
Proof.
  cbn zeta.
  set (xml := "<samlp:Response>...</samlp:Response>").
  set (doc := example_document _ _ _).
  destruct (@roles_raises_on_missing_comma (parser_of [(xml, doc)])
              (Amazon_init example_config (Some xml)) xml doc eq_refl eq_refl)
    as [Hok _].
  rewrite Hok.
  - vm_compute. reflexivity.
  - repeat constructor; intros Hm; vm_compute in Hm |- *; done.
Defined.

(** ** Alias resolution *)

Section Aliases.
Context `{AliasListing}.

(** A worker writes one entry under the account of its role, or ends with
    [IndexError] without writing when the role has no fifth field. *)
Lemma run_thread_eq (this : Amazon) (d : gmap string string) (role principal : string) :
  run_thread this d (role, principal) =
    match account_of role with
    | inr account => <[account := alias_entry this role principal account]> d
    | inl _ => d
    end.
Proof.
  unfold run_thread, resolve_aws_alias, alias_entry, mbind, exn_bind. cbn [fst snd].
  destruct (account_alias_of this role principal); destruct (account_of role); reflexivity.
Qed.

Lemma resolve_in_lookup_other (this : Amazon) (order : list (string * string))
    (d : gmap string string) (a : string) :
  (∀ x, x ∈ order → account_of x.1 ≠ inr a) →
  foldl (run_thread this) d order !! a = d !! a.
Proof.
  revert d. induction order as [|[role principal] order IH]; intros d Hx; [done|].
  cbn [foldl]. rewrite IH by (intros x Hin; apply Hx; by right).
  rewrite run_thread_eq. specialize (Hx (role, principal) (ltac:(by left))).
  cbn [fst] in Hx. destruct (account_of role) as [e|a']; [done|].
  apply lookup_insert_ne. congruence.
Qed.

Lemma resolve_in_keys (this : Amazon) (order : list (string * string))
    (d : gmap string string) (a : string) :
  is_Some (foldl (run_thread this) d order !! a) ↔
  is_Some (d !! a) ∨ ∃ role principal, (role, principal) ∈ order ∧ account_of role = inr a.
Proof.
  revert d. induction order as [|[role principal] order IH]; intros d; cbn [foldl].
  - split; [by left | intros [?|(? & ? & []%elem_of_nil & _)]; done].
  - rewrite IH, run_thread_eq. split.
    + intros [Hd|(r & p & Hin & Ha)].
      * destruct (account_of role) as [e|a'] eqn:Hrole; [by left|].
        apply lookup_insert_is_Some in Hd as [->|[_ Hd]]; [|by left].
        right. exists role, principal. split; [by left | done].
      * right. exists r, p. split; [by right | done].
    + intros [Hd|(r & p & Hin & Ha)].
      * left. destruct (account_of role) as [e|a']; [done|].
        apply lookup_insert_is_Some. destruct (decide (a' = a)); [by left | by right].
      * apply elem_of_cons in Hin as [[= -> ->]|Hin].
        -- left. rewrite Ha. rewrite lookup_insert_eq. by eexists.
        -- right. by exists r, p.
Qed.

Lemma resolve_in_size_le (this : Amazon) (order : list (string * string))
    (d : gmap string string) :
  (size (foldl (run_thread this) d order) <= size d + length order)%nat.
Proof.
  revert d. induction order as [|[role principal] order IH]; intros d; cbn [foldl length].
  - lia.
  - etrans; [apply IH|]. rewrite run_thread_eq.
    destruct (account_of role) as [e|a]; [lia|].
    pose proof (map_size_insert a (alias_entry this role principal a) d) as Hs.
    destruct (d !! a); cbn [id] in Hs; unfold id in Hs; lia.
Qed.

(** With pairwise distinct accounts, each worker's entry is in the result,
    and the result has one entry per worker. *)
Lemma resolve_in_distinct (this : Amazon) (order : list (string * string))
    (d : gmap string string) :
  NoDup order →
  (∀ x y a, x ∈ order → y ∈ order →
     account_of x.1 = inr a → account_of y.1 = inr a → x = y) →
  (∀ role principal a, (role, principal) ∈ order → account_of role = inr a →
     foldl (run_thread this) d order !! a = Some (alias_entry this role principal a))
  ∧ ((∀ x, x ∈ order → ∃ a, account_of x.1 = inr a ∧ d !! a = None) →
     size (foldl (run_thread this) d order) = (size d + length order)%nat).
Proof.
  intros Hnd. revert d.
  induction Hnd as [|[role principal] order Hnotin Hnd IH]; intros d Hinj.
  { split; [by intros ? ? ? []%elem_of_nil | cbn; lia]. }
  assert (Hrest : ∀ y a, y ∈ order → account_of role = inr a → account_of y.1 ≠ inr a).
  { intros y a Hy Ha Hya. apply Hnotin.
    rewrite (Hinj (role, principal) y a); [done|by left|by right|done|done]. }
  destruct (IH (run_thread this d (role, principal))) as [IHval IHsize].
  { intros x y a Hx Hy. apply Hinj; by right. }
  cbn [foldl length]. split.
  - intros r p a [[= -> ->]|Hin]%elem_of_cons Ha; [|by eapply IHval].
    rewrite resolve_in_lookup_other by (intros y Hy; by eapply Hrest).
    rewrite run_thread_eq, Ha. apply lookup_insert_eq.
  - intros Hfresh.
    destruct (Hfresh (role, principal) (ltac:(by left))) as (a & Ha & Hda).
    cbn [fst] in Ha. rewrite IHsize.
    + rewrite run_thread_eq, Ha, map_size_insert_None by done. lia.
    + intros y Hy. destruct (Hfresh y (ltac:(by right))) as (b & Hb & Hdb).
      exists b. split; [done|]. rewrite run_thread_eq, Ha.
      rewrite lookup_insert_ne; [done|]. intros ->. by eapply Hrest.
Qed.

(** C8, as the code has it.  [resolve_aws_aliases] always returns.  Whatever
    the order in which the workers finish, the keys of the result are the
    account identifiers (fifth colon-delimited field) of the roles that have
    one, so there are at most as many entries as roles.  When every role has
    an account identifier and no two roles share one, there is one entry per
    role, and the entry of a role is the first alias listed for it, or its
    account identifier when its lookup raised, whatever happened to the other
    roles. *)
Theorem resolve_aws_aliases_entries (this : Amazon) (roles : gmap string string) :
  (∃ result, resolve_aws_aliases this roles result)
  ∧ (∀ result, resolve_aws_aliases this roles result →
       (∀ account, is_Some (result !! account) ↔
          ∃ role principal, roles !! role = Some principal ∧ account_of role = inr account)
       ∧ (size result <= size roles)%nat
       ∧ ((∀ role, is_Some (roles !! role) → ∃ account, account_of role = inr account) →
          (∀ role1 role2 account,
             is_Some (roles !! role1) → is_Some (roles !! role2) →
             account_of role1 = inr account → account_of role2 = inr account →
             role1 = role2) →
          size result = size roles
          ∧ ∀ role principal account,
              roles !! role = Some principal → account_of role = inr account →
              result !! account = Some (alias_entry this role principal account)))
  ∧ (∀ role principal account err,
       account_alias_of this role principal = inl err →
       alias_entry this role principal account = account).
Proof.
  split; [by exists (resolve_aws_aliases_in this (map_to_list roles)), (map_to_list roles)|].
  split; [|intros role principal account err Herr; unfold alias_entry; by rewrite Herr].
  intros result (order & Hperm & ->). unfold resolve_aws_aliases_in.
  assert (Hin : ∀ role principal, (role, principal) ∈ order ↔ roles !! role = Some principal).
  { intros role principal. rewrite Hperm. apply elem_of_map_to_list. }
  assert (Hlen : length order = size roles).
  { by rewrite Hperm, length_map_to_list. }
  split; [|split].
  - intros account. rewrite resolve_in_keys, lookup_empty. split.
    + intros [[? [=]]|(role & principal & Hx & Ha)]. exists role, principal.
      by rewrite <- Hin.
    + intros (role & principal & Hx & Ha). right. exists role, principal.
      by rewrite Hin.
  - pose proof (resolve_in_size_le this order ∅) as Hle.
    rewrite map_size_empty in Hle. lia.
  - intros Hall Hinj.
    destruct (resolve_in_distinct this order ∅) as [Hval Hsize].
    { rewrite Hperm. apply NoDup_map_to_list. }
    { intros [r1 p1] [r2 p2] a Hx Hy Ha1 Ha2. cbn [fst] in *.
      apply Hin in Hx, Hy.
      assert (r1 = r2) as -> by (eapply Hinj; by eauto).
      congruence. }
    split.
    + rewrite Hsize, map_size_empty; [lia|].
      intros [r p] Hx. apply Hin in Hx. destruct (Hall r) as [a Ha]; [by eexists|].
      exists a. by rewrite lookup_empty.
    + intros role principal account Hrole Ha. apply Hval; [by apply Hin | done].
Qed.

End Aliases.

(** *** Alias resolution on example listings *)

(** C8 as stated fails.  Two roles of one account: both workers write under
    the same account identifier, in either order, and the result has one
    entry for two roles. *)
Lemma resolve_aws_aliases_shared_account :
  let admin := "arn:aws:iam::111111111111:role/Admin" in
  let reader := "arn:aws:iam::111111111111:role/ReadOnly" in
  let provider := "arn:aws:iam::111111111111:saml-provider/Bar" in
  let roles : gmap string string := <[admin := provider]> {[ reader := provider ]} in
  let listing := listing_of [(admin, inr ["prod"]); (reader, inr ["prod"])] in
  let this := Amazon_init example_config (Some "<a/>x") in
  let result : gmap string string := {[ "111111111111" := "prod" ]} in
  @resolve_aws_aliases listing this roles result
  ∧ @resolve_aws_aliases_in listing this [(admin, provider); (reader, provider)] = result
  ∧ @resolve_aws_aliases_in listing this [(reader, provider); (admin, provider)] = result
  ∧ size roles = 2%nat ∧ size result = 1%nat.
Proof.
  cbn zeta. split.
  - eexists. split; [reflexivity|]. vm_compute. reflexivity.
  - repeat split; vm_compute; reflexivity.
Qed.

(** A role identifier with fewer than five fields gets no entry: its worker
    ends with [IndexError] before it writes. *)
Lemma resolve_aws_aliases_malformed_arn :
  let roles : gmap string string := {[ "role/Foo" := "saml-provider/Bar" ]} in
  let listing := listing_of [("role/Foo", inr ["prod"])] in
  let this := Amazon_init example_config (Some "<a/>x") in
  @resolve_aws_aliases listing this roles ∅
  ∧ @resolve_aws_alias listing this "role/Foo" "saml-provider/Bar" ∅ = inl IndexError.
Proof.
  cbn zeta. split.
  - eexists. split; [reflexivity|]. vm_compute. reflexivity.
  - vm_compute. reflexivity.
Qed.

(** Three roles of three accounts: the listing answers for the first, is
    unreachable for the second and lists no alias for the third.  Three
    entries; the second and third are their account identifiers. *)
Lemma resolve_aws_aliases_isolated_failures :
  let prod := "arn:aws:iam::111111111111:role/Foo" in
  let dev := "arn:aws:iam::222222222222:role/Foo" in
  let test := "arn:aws:iam::333333333333:role/Foo" in
  let provider := "arn:aws:iam::111111111111:saml-provider/Bar" in
  let roles : gmap string string :=
    <[prod := provider]> (<[dev := provider]> {[ test := provider ]}) in
  let listing := listing_of [(prod, inr ["production"]); (test, inr [])] in
  let this := Amazon_init example_config (Some "<a/>x") in
  let result := @resolve_aws_aliases_in listing this (map_to_list roles) in
  size result = 3%nat
  ∧ result !! "111111111111" = Some "production"
  ∧ result !! "222222222222" = Some "222222222222"
  ∧ result !! "333333333333" = Some "333333333333".
Proof.
  cbn zeta.
  set (prod := "arn:aws:iam::111111111111:role/Foo").
  set (dev := "arn:aws:iam::222222222222:role/Foo").
  set (test := "arn:aws:iam::333333333333:role/Foo").
  set (provider := "arn:aws:iam::111111111111:saml-provider/Bar").
  set (roles := <[prod := provider]> (<[dev := provider]> {[ test := provider ]})
                : gmap string string).
  set (listing := listing_of _).
  set (this := Amazon_init _ _).
  destruct (@resolve_aws_aliases_entries listing this roles) as (_ & Hentries & _).
  destruct (Hentries (@resolve_aws_aliases_in listing this (map_to_list roles)))
    as (_ & _ & Hdistinct).
  { by exists (map_to_list roles). }
  assert (Hdom : ∀ role, is_Some (roles !! role) → role = prod ∨ role = dev ∨ role = test).
  { intros role [p Hp]. unfold roles in Hp.
    apply lookup_insert_Some in Hp as [[<- _]|[_ Hp]]; [by left|].
    apply lookup_insert_Some in Hp as [[<- _]|[_ Hp]]; [by right; left|].
    apply lookup_singleton_Some in Hp as [<- _]. by right; right. }
  destruct Hdistinct as [Hsize Hval].
  - intros role [->|[->| ->]]%Hdom; eexists; vm_compute; reflexivity.
  - intros role1 role2 account [->|[->| ->]]%Hdom [->|[->| ->]]%Hdom H1 H2;
      try reflexivity; vm_compute in H1, H2; congruence.
  - split; [exact Hsize|].
    split; [|split].
    + apply (Hval prod provider); vm_compute; reflexivity.
    + apply (Hval dev provider); vm_compute; reflexivity.
    + apply (Hval test provider); vm_compute; reflexivity.
Defined.

(** * Further properties of the module *)

(** ** [sts_client]: what a caller can rely on *)

Section ClientContract.
Context {E C : Type} `{Boto3 E C}.

(** When [sts_client] returns a client, it is the client boto3 built for the
    service [sts] and the configured region in the environment without
    [AWS_PROFILE], and the process is as before except for what the
    construction did outside. *)
Theorem sts_client_returns (st st' : Process E) (c : C) :
  sts_client st = (inr c, st') →
  ∃ e, boto3_client "sts" (Config.region (config (self st)))
         (delete "AWS_PROFILE" (environ st)) (ext st) = (inr c, e)
       ∧ st' = {| self := self st; environ := environ st;
                  sts_calls := sts_calls st; ext := e |}.
Proof.
  rewrite sts_client_unfold. cbn zeta.
  destruct (boto3_client _ _ _ _) as [[err|c'] e]; intros [= <- <-]. by exists e.
Qed.

(** What [sts_client] raises: [ExpectedAmazonException] with the text of the
    [ProfileNotFound] between ["Error : "] and a full stop, or, unchanged, any
    other exception of the construction.  It never raises [ProfileNotFound]. *)
Theorem sts_client_raises (st st' : Process E) (err : exn) :
  sts_client st = (inl err, st') →
  (∃ raised e,
     boto3_client "sts" (Config.region (config (self st)))
       (delete "AWS_PROFILE" (environ st)) (ext st) = (inl raised, e)
     ∧ ext st' = e
     ∧ ((∃ ex, raised = ProfileNotFound ex
               ∧ err = ExpectedAmazonException ("Error : " ++ ex ++ "."))
        ∨ ((∀ ex, raised ≠ ProfileNotFound ex) ∧ err = raised)))
  ∧ (∀ ex, err ≠ ProfileNotFound ex).
Proof.
  rewrite sts_client_unfold. cbn zeta.
  destruct (boto3_client _ _ _ _) as [[raised|c'] e]; intros [= <- <-].
  split.
  - exists raised, e. split; [done|]. split; [done|].
    destruct raised; try (right; split; [intros ?; discriminate | reflexivity]).
    left. by eexists.
  - intros ex. by destruct raised.
Qed.

(** Whatever happens, [sts_client] leaves the broker object and the log of
    endpoint calls alone and touches no environment variable other than
    [AWS_PROFILE]. *)
Theorem sts_client_frame (st : Process E) :
  self (sts_client st).2 = self st
  ∧ sts_calls (sts_client st).2 = sts_calls st
  ∧ ∀ name, name ≠ "AWS_PROFILE" →
      environ (sts_client st).2 !! name = environ st !! name.
Proof.
  rewrite sts_client_unfold. cbn zeta.
  destruct (boto3_client _ _ _ _) as [[raised|c'] e]; cbn [snd self sts_calls environ];
    repeat split; try done.
  intros name Hne. by rewrite lookup_delete_ne.
Qed.

End ClientContract.

(** The client is built with [AWS_PROFILE=dev] out of the way and the setting
    is back afterwards. *)
Lemma sts_client_returns_example :
  let st := example_process {[ "AWS_PROFILE" := "dev"; "HOME" := "/root" ]}
              {| constructions := []; responses := [] |} in
  @boto3_client _ _ scripted "sts" "eu-west-1" {[ "HOME" := "/root" ]} (ext st)
    = (inr tt, ext st)
  ∧ (@sts_client _ _ scripted st).2 = st.
Proof.
  cbn zeta.
  set (st := example_process _ _).
  destruct (@sts_client_returns _ _ scripted st (@sts_client _ _ scripted st).2 tt eq_refl)
    as (e & Hbuilt & Hst).
  split; [reflexivity|]. vm_compute in Hbuilt.
  injection Hbuilt as He. rewrite Hst, <- He. reflexivity.
Defined.

Lemma sts_client_raises_example :
  let st := example_process ∅
              {| constructions := [inl (ProfileNotFound "The config profile (x) could not be found")];
                 responses := [] |} in
  let err := ExpectedAmazonException "Error : The config profile (x) could not be found." in
  (@sts_client _ _ scripted st).1 = inl err
  ∧ ∀ ex, err ≠ ProfileNotFound ex.
Proof.
  cbn zeta. set (st := example_process _ _). split; [reflexivity|].
  apply (@sts_client_raises _ _ scripted st (@sts_client _ _ scripted st).2 _ eq_refl).
Defined.

(** ** The pattern of [assume_role]: when it matches and what it yields *)

Lemma int_acc_bounds (s : string) (acc : Z) :
  all_digits s = true → 0 <= acc →
  acc * 10 ^ Z.of_nat (String.length s) <= int_acc acc s
    < (acc + 1) * 10 ^ Z.of_nat (String.length s).
Proof.
  revert acc. induction s as [|c s IH]; intros acc Hd Hacc.
  - cbn. lia.
  - cbn [all_digits] in Hd. apply andb_true_iff in Hd as [Hc Hd].
    unfold is_digit in Hc. apply andb_true_iff in Hc as [Hlo Hhi].
    apply Nat.leb_le in Hlo, Hhi.
    cbn [int_acc String.length]. rewrite Nat2Z.inj_succ, Z.pow_succ_r by lia.
    specialize (IH (10 * acc + (Z.of_nat (nat_of_ascii c) - 48)) Hd). nia.
Qed.

(** The pattern has a match exactly when the phrase is somewhere followed by
    three ASCII digits. *)
Theorem re_search_matches_iff (s : string) :
  is_Some (re_search s) ↔
  ∃ pre d rest, s = pre ++ max_duration_phrase ++ d ++ rest
                ∧ all_digits d = true ∧ String.length d = 3%nat.
Proof.
  split.
  - intros [g Hg].
    destruct (re_search_sound _ _ Hg) as (pre & post & -> & Hd & Hlen & _).
    destruct g as [|c1 [|c2 [|c3 g]]]; cbn in Hlen; try lia.
    exists pre, (String c1 (String c2 (String c3 ""))), (g ++ post).
    cbn [all_digits] in *. split; [done|]. split; [|done].
    apply andb_true_iff in Hd as [-> Hd]. apply andb_true_iff in Hd as [-> Hd].
    by apply andb_true_iff in Hd as [-> _].
  - intros (pre & d & rest & -> & Hd & Hlen). apply re_search_complete; [done | lia].
Qed.

(** The duration read from a match is a number from 0 to 99999. *)
Theorem re_search_duration_bounds (s g : string) :
  re_search s = Some g → 0 <= int g <= 99999.
Proof.
  intros Hg. destruct (re_search_sound _ _ Hg) as (_ & _ & _ & Hd & Hlen & _).
  pose proof (int_acc_bounds g 0 Hd (Z.le_refl 0)) as Hb. fold (int g) in Hb.
  assert (10 ^ Z.of_nat (String.length g) <= 10 ^ 5).
  { apply Z.pow_le_mono_r; lia. }
  lia.
Qed.

Lemma contains_cons_false (sub : string) (c : ascii) (s : string) :
  contains sub (String c s) = false →
  String.prefix sub (String c s) = false ∧ contains sub s = false.
Proof. cbn [contains]. by intros [? ?]%orb_false_iff. Qed.


Lemma int_digits_bounds (g : string) :
  all_digits g = true → (String.length g <= 5)%nat → 0 <= int g <= 99999.
Proof.
  intros Hd Hlen.
  pose proof (int_acc_bounds g 0 Hd (Z.le_refl 0)) as Hb. fold (int g) in Hb.
  assert (10 ^ Z.of_nat (String.length g) <= 10 ^ 5) by (apply Z.pow_le_mono_r; lia).
  lia.
Qed.




(** A bound written [000]: the handler narrows, and the retry carries no
    [DurationSeconds]. *)
Lemma assume_role_bound_of_zeros :
  let st := example_process ∅
              {| constructions := [];
                 responses := [inl (validation_error
                                      "Member must have value less than or equal to 000");
                               inr (credentials_of "default")] |} in
  let r := @assume_role _ _ scripted "arn:aws:iam::111111111111:role/Foo"
             "arn:aws:iam::111111111111:saml-provider/Bar" "PGEvPng=" (Some 3600) true st in
  re_search "Member must have value less than or equal to 000" = Some "000"
  ∧ r.1 = inr (credentials_of "default")
  ∧ sts_calls r.2 =
      [probe_vars;
       {| RoleArn := "arn:aws:iam::111111111111:role/Foo";
          PrincipalArn := "arn:aws:iam::111111111111:saml-provider/Bar";
          SAMLAssertion := "PGEvPng="; DurationSeconds := None |}].
Proof. vm_compute. done. Qed.

(** A run of nine digits after the phrase: the match is its first five, and
    the duration stays below 100000. *)
Lemma re_search_duration_bounds_example :
  re_search "Member must have value less than or equal to 999999999" = Some "99999"
  ∧ 0 <= int "99999" <= 99999.
Proof.
  split; [reflexivity|].
  exact (re_search_duration_bounds
           "Member must have value less than or equal to 999999999" "99999" eq_refl).
Defined.

(** ** [assume_role]: what it touches and what it sends *)

Section IssueFrame.
Context {E C : Type} `{Boto3 E C}.

(** One evaluation of the call expression: the broker object is left alone,
    only [AWS_PROFILE] may change in the environment, and the log gains
    nothing or the call. *)
Lemma endpoint_frame (vars : StsCallVars) (st : Process E) :
  let st' := (sts_client_assume_role_with_saml vars st).2 in
  self st' = self st
  ∧ (∀ name, name ≠ "AWS_PROFILE" → environ st' !! name = environ st !! name)
  ∧ (sts_calls st' = sts_calls st ∨ sts_calls st' = (sts_calls st ++ [vars])%list).
Proof.
  cbn zeta. rewrite endpoint_unfold, sts_client_unfold. cbn zeta.
  destruct (boto3_client _ _ _ _) as [[raised|c] e]; cbn [snd self environ sts_calls].
  - repeat split; [|by left]. intros name Hne. by rewrite lookup_delete_ne.
  - unfold call_assume_role_with_saml. cbn [self environ sts_calls ext].
    destruct (assume_role_with_saml _ _ _) as [r e']. cbn [snd self environ sts_calls].
    repeat split. by right.
Qed.

Lemma endpoint_sent (this : Amazon) (role principal saml : string) (duration : option Z)
    (vars : StsCallVars) (st : Process E) :
  sent_by this role principal saml duration vars →
  let st' := (sts_client_assume_role_with_saml vars st).2 in
  self st' = self st
  ∧ (∀ name, name ≠ "AWS_PROFILE" → environ st' !! name = environ st !! name)
  ∧ ∃ new, sts_calls st' = (sts_calls st ++ new)%list
           ∧ Forall (sent_by this role principal saml duration) new
           ∧ (length new <= 1)%nat.
Proof.
  intros Hsent. cbn zeta. destruct (endpoint_frame vars st) as (Hself & Henv & Hlog).
  split; [done|]. split; [done|]. destruct Hlog as [Hlog|Hlog].
  - exists []. rewrite Hlog, app_nil_r. repeat split; [done | cbn; lia].
  - exists [vars]. split; [done|]. split; [by constructor | cbn; lia].
Qed.

Lemma fixed_call_vars_sent (this : Amazon) (role principal saml : string)
    (duration : option Z) :
  sent_by this role principal saml duration (fixed_call_vars role principal saml duration).
Proof.
  unfold sent_by, fixed_call_vars. cbn. repeat split.
  destruct (truthy_int duration); [by right; left | by left].
Qed.

Lemma retry_call_vars_sent (this : Amazon) (role principal saml : string)
    (duration : option Z) (err : exn) (g : string) :
  narrowing_group err = Some g →
  sent_by this role principal saml duration
    (fixed_call_vars role principal saml (Some (int g))).
Proof.
  intros (msg & _ & Hg)%narrowing_group_Some.
  destruct (re_search_sound _ _ Hg) as (_ & _ & _ & Hd & Hlen & _).
  pose proof (int_digits_bounds g Hd (proj2 Hlen)) as Hb.
  unfold sent_by, fixed_call_vars, truthy_int. cbn. repeat split.
  destruct (int g =? 0) eqn:Hz; cbn; [by left|].
  apply Z.eqb_neq in Hz. right; right; right. exists (int g). split; [done | lia].
Qed.

Lemma probe_call_vars_sent (this : Amazon) (role principal saml : string)
    (duration : option Z) :
  sent_by this role principal saml duration (probe_call_vars this role principal saml).
Proof. unfold sent_by, probe_call_vars. cbn. repeat split. by right; right; left. Qed.

(** The pieces together, for any invocation. *)
Lemma assume_role_sent (role principal saml : string) (duration : option Z)
    (auto : bool) (st : Process E) :
  let st' := (assume_role role principal saml duration auto st).2 in
  self st' = self st
  ∧ (∀ name, name ≠ "AWS_PROFILE" → environ st' !! name = environ st !! name)
  ∧ ∃ new, sts_calls st' = (sts_calls st ++ new)%list
           ∧ Forall (sent_by (self st) role principal saml duration) new
           ∧ (length new <= 2)%nat.
Proof.
  cbn zeta. destruct (Config.auto_duration (config (self st)) && auto) eqn:Hauto.
  2: { rewrite assume_role_fixed by exact Hauto.
       destruct (endpoint_sent (self st) role principal saml duration _ st
                   (fixed_call_vars_sent _ _ _ _ _)) as (? & ? & new & ? & ? & ?).
       split; [done|]. split; [done|]. exists new. repeat split; [done..|lia]. }
  apply andb_true_iff in Hauto as [Hon ->].
  rewrite assume_role_probe by exact Hon. cbn zeta.
  set (vars := probe_call_vars (self st) role principal saml).
  destruct (endpoint_sent (self st) role principal saml duration vars st
              (probe_call_vars_sent _ _ _ _ _))
    as (Hself1 & Henv1 & new1 & Hlog1 & Hall1 & Hlen1).
  destruct (sts_client_assume_role_with_saml vars st) as [[err|res] st1];
    cbn [snd] in Hself1, Henv1, Hlog1.
  - destruct (narrowing_group err) as [g|] eqn:Hg.
    + rewrite assume_role_false.
      destruct (endpoint_sent (self st) role principal saml duration _ st1
                  (retry_call_vars_sent _ _ _ _ _ _ _ Hg))
        as (Hself2 & Henv2 & new2 & Hlog2 & Hall2 & Hlen2).
      split; [congruence|]. split.
      * intros name Hne. by rewrite Henv2, Henv1.
      * exists (new1 ++ new2)%list. rewrite Hlog2, Hlog1, app_assoc, length_app.
        split; [done|]. split; [by apply Forall_app | lia].
    + cbn [snd]. split; [done|]. split; [done|]. exists new1.
      repeat split; [done..|lia].
  - destruct (endpoint_sent (self st) role principal saml duration vars st1
                (probe_call_vars_sent _ _ _ _ _))
      as (Hself2 & Henv2 & new2 & Hlog2 & Hall2 & Hlen2).
    split; [congruence|]. split.
    + intros name Hne. by rewrite Henv2, Henv1.
    + exists (new1 ++ new2)%list. rewrite Hlog2, Hlog1, app_assoc, length_app.
      split; [done|]. split; [by apply Forall_app | lia].
Qed.

(** Every invocation of [assume_role] leaves the broker object as it is and
    changes no environment variable other than [AWS_PROFILE].  Each endpoint
    call it makes carries the caller's role, principal and assertion; the
    duration it sends is absent, the caller's, the configured maximum, or a
    number from 1 to 99999 read from the error message. *)
Theorem assume_role_frame (role principal saml : string) (duration : option Z)
    (auto : bool) (st : Process E) :
  let st' := (assume_role role principal saml duration auto st).2 in
  self st' = self st
  ∧ (∀ name, name ≠ "AWS_PROFILE" → environ st' !! name = environ st !! name)
  ∧ ∃ new, sts_calls st' = (sts_calls st ++ new)%list
           ∧ Forall (fun v =>
                RoleArn v = role ∧ PrincipalArn v = principal ∧ SAMLAssertion v = saml
                ∧ (DurationSeconds v = None
                   ∨ DurationSeconds v = duration
                   ∨ DurationSeconds v = Some (Config.max_duration (config (self st)))
                   ∨ ∃ N, DurationSeconds v = Some N ∧ 1 <= N <= 99999)) new.
Proof.
  cbn zeta.
  destruct (assume_role_sent role principal saml duration auto st)
    as (Hself & Henv & new & Hlog & Hall & _).
  split; [done|]. split; [done|]. by exists new.
Qed.

(** Without negotiation (switched off in the configuration, or by the
    caller) [assume_role] is one evaluation of the call expression.  The
    duration is sent as given, except that [None] and [0] send no duration;
    the configured maximum plays no part. *)
Theorem assume_role_without_negotiation (role principal saml : string)
    (duration : option Z) (auto : bool) (st : Process E) :
  Config.auto_duration (config (self st)) = false ∨ auto = false →
  assume_role role principal saml duration auto st =
    sts_client_assume_role_with_saml
      {| RoleArn := role; PrincipalArn := principal; SAMLAssertion := saml;
         DurationSeconds := match duration with
                            | Some d => if d =? 0 then None else Some d
                            | None => None
                            end |} st.
Proof.
  intros Hoff. rewrite assume_role_fixed.
  - unfold fixed_call_vars, truthy_int. destruct duration as [d|]; [|done].
    by destruct (d =? 0).
  - destruct Hoff as [-> | ->]; [done | apply andb_false_r].
Qed.

(** With negotiation on, an exception of the first client construction that
    is not a [ClientError] ends the invocation: it is raised as it is and the
    endpoint is not called. *)
Theorem assume_role_client_failure (role principal saml : string) (duration : option Z)
    (st st1 : Process E) (err : exn) :
  Config.auto_duration (config (self st)) = true →
  sts_client st = (inl err, st1) →
  (∀ response, err ≠ ClientError response) →
  assume_role role principal saml duration true st = (inl err, st1)
  ∧ sts_calls st1 = sts_calls st.
Proof.
  intros Hon Hclient Hother. rewrite assume_role_probe by exact Hon. cbn zeta.
  rewrite endpoint_unfold, Hclient.
  pose proof (sts_client_calls st) as [Hlog _]. rewrite Hclient in Hlog.
  split; [|exact Hlog].
  destruct err; try reflexivity. by destruct (Hother response).
Qed.

(** With negotiation on, a probe that fails with a [ClientError] whose
    response has no ["Error"] entry makes [assume_role] raise
    [AttributeError] in place of that error, after the probe alone. *)
Theorem assume_role_error_entry_missing (role principal saml : string)
    (duration : option Z) (st st1 st2 : Process E) (c : C) :
  Config.auto_duration (config (self st)) = true →
  sts_client st = (inr c, st1) →
  call_assume_role_with_saml c (probe_call_vars (self st) role principal saml) st1
    = (inl (ClientError {| Error := None |}), st2) →
  assume_role role principal saml duration true st
    = (inl (AttributeError "'list' object has no attribute 'get'"), st2)
  ∧ sts_calls st2
    = (sts_calls st ++ [probe_call_vars (self st) role principal saml])%list.
Proof.
  intros Hon Hclient Hcall.
  rewrite (assume_role_after_failed_probe _ _ _ _ _ _ _ _ _ Hon Hclient Hcall).
  split; [reflexivity|]. by destruct (probe_failure_log _ _ _ _ _ _ Hclient Hcall).
Qed.

End IssueFrame.

(** *** These properties on scripted endpoints *)

(** Negotiation switched off by the caller, duration 0: one call, and it
    carries no duration. *)
Lemma assume_role_without_negotiation_example :
  let st := example_process ∅
              {| constructions := []; responses := [inr (credentials_of "first")] |} in
  let r := @assume_role _ _ scripted "arn:aws:iam::111111111111:role/Foo"
             "arn:aws:iam::111111111111:saml-provider/Bar" "PGEvPng=" (Some 0) false st in
  r.1 = inr (credentials_of "first")
  ∧ sts_calls r.2 =
      [{| RoleArn := "arn:aws:iam::111111111111:role/Foo";
          PrincipalArn := "arn:aws:iam::111111111111:saml-provider/Bar";
          SAMLAssertion := "PGEvPng="; DurationSeconds := None |}].
Proof.
  cbn zeta. set (st := example_process _ _).
  rewrite (@assume_role_without_negotiation _ _ scripted _ _ _ (Some 0) false st
             (or_intror eq_refl)).
  split; reflexivity.
Defined.

(** The probe accepted: the endpoint is called again with the same arguments. *)
Lemma assume_role_probe_success_example :
  let st := example_process ∅
              {| constructions := [];
                 responses := [inr (credentials_of "first"); inr (credentials_of "second")] |} in
  @assume_role _ _ scripted "arn:aws:iam::111111111111:role/Foo"
    "arn:aws:iam::111111111111:saml-provider/Bar" "PGEvPng=" None true st
  = @sts_client_assume_role_with_saml _ _ scripted probe_vars
      (@sts_client_assume_role_with_saml _ _ scripted probe_vars st).2.
Proof.
  cbn zeta. set (st := example_process _ _).
  exact (@assume_role_probe_success _ _ scripted
           "arn:aws:iam::111111111111:role/Foo"
           "arn:aws:iam::111111111111:saml-provider/Bar" "PGEvPng=" None st
           (@sts_client_assume_role_with_saml _ _ scripted probe_vars st).2
           (credentials_of "first") eq_refl eq_refl).
Defined.

(** No usable profile: [ExpectedAmazonException] comes out of [assume_role]
    and the endpoint was not called. *)
Lemma assume_role_client_failure_example :
  let st := example_process ∅
              {| constructions := [inl (ProfileNotFound "The config profile (x) could not be found")];
                 responses := [inr (credentials_of "first")] |} in
  let r := @assume_role _ _ scripted "arn:aws:iam::111111111111:role/Foo"
             "arn:aws:iam::111111111111:saml-provider/Bar" "PGEvPng=" None true st in
  r.1 = inl (ExpectedAmazonException "Error : The config profile (x) could not be found.")
  ∧ sts_calls r.2 = [].
Proof.
  cbn zeta. set (st := example_process _ _).
  destruct (@assume_role_client_failure _ _ scripted
              "arn:aws:iam::111111111111:role/Foo"
              "arn:aws:iam::111111111111:saml-provider/Bar" "PGEvPng=" None st
              (@sts_client _ _ scripted st).2
              (ExpectedAmazonException "Error : The config profile (x) could not be found.")
              eq_refl eq_refl ltac:(intros response; discriminate))
    as [Hr Hlog].
  rewrite Hr. split; [reflexivity | exact Hlog].
Defined.

(** A [ClientError] without an ["Error"] entry is replaced by
    [AttributeError]. *)
Lemma assume_role_error_entry_missing_example :
  let st := example_process ∅
              {| constructions := [];
                 responses := [inl (ClientError {| Error := None |})] |} in
  let r := @assume_role _ _ scripted "arn:aws:iam::111111111111:role/Foo"
             "arn:aws:iam::111111111111:saml-provider/Bar" "PGEvPng=" None true st in
  r.1 = inl (AttributeError "'list' object has no attribute 'get'")
  ∧ sts_calls r.2 = [probe_vars].
Proof.
  cbn zeta. set (st := example_process _ _).
  destruct (@assume_role_error_entry_missing _ _ scripted
              "arn:aws:iam::111111111111:role/Foo"
              "arn:aws:iam::111111111111:saml-provider/Bar" "PGEvPng=" None st st
              (@call_assume_role_with_saml _ _ scripted tt probe_vars st).2 tt
              eq_refl eq_refl eq_refl)
    as [Hr Hlog].
  rewrite Hr. split; [reflexivity | exact Hlog].
Defined.

(** ** Accesses to the credential: what they send and what they keep *)

Section Accesses.
Context {E C : Type} `{Boto3 E C}.

(** Every access leaves the state [token] leaves. *)
Lemma perform_state (a : access) (st : Process E) :
  (perform a st).2 = (token st).2.
Proof.
  destruct a; unfold perform, access_key_id, secret_access_key, session_token,
    expiration, mbind, M_bind, bind, lift, mret, M_ret, ret;
    destruct (token st) as [[e|t] st1]; try reflexivity;
    destruct (dict_getitem _ _); reflexivity.
Qed.

(** [token] on a broker without a token, in terms of [assume_role]. *)
Lemma token_fetch (st : Process E) (xml : string) :
  __token (self st) = None → saml_xml (self st) = Some xml →
  token st =
    match assume_role (Config.role_arn (config (self st)))
            (Config.provider (config (self st))) (b64encode xml)
            (Config.duration (config (self st))) true st with
    | (inr t, st1) =>
        (inr t, {| self := {| config := config (self st1); saml_xml := saml_xml (self st1);
                              __token := Some t; __roles := __roles (self st1) |};
                   environ := environ st1; sts_calls := sts_calls st1; ext := ext st1 |})
    | (inl e, st1) => (inl e, st1)
    end.
Proof.
  intros Hnone Hxml.
  unfold token, mbind, M_bind, bind, get_self, lift, base64_encoded_saml, set_token,
    mret, M_ret, ret.
  rewrite Hnone, Hxml.
  by destruct (assume_role _ _ _ _ _ _) as [[e|t] st1].
Qed.

(** A fetch that fails is not remembered: when [token] raises, the broker
    object is unchanged and still holds no token, so the next access tries
    the endpoint again. *)
Theorem token_failure_not_cached (st st' : Process E) (err : exn) :
  token st = (inl err, st') →
  self st' = self st ∧ __token (self st') = None.
Proof.
  destruct (__token (self st)) as [t|] eqn:Ht.
  { by rewrite (token_cached st t Ht). }
  destruct (saml_xml (self st)) as [xml|] eqn:Hxml.
  - rewrite (token_fetch st xml Ht Hxml).
    pose proof (assume_role_sent (Config.role_arn (config (self st)))
                  (Config.provider (config (self st))) (b64encode xml)
                  (Config.duration (config (self st))) true st) as (Hself & _).
    destruct (assume_role _ _ _ _ _ _) as [[e|t] st1]; [|done].
    intros [= <- <-]. cbn [snd] in Hself. by rewrite Hself.
  - unfold token, mbind, M_bind, bind, get_self, lift, base64_encoded_saml.
    rewrite Ht, Hxml. by intros [= <- <-].
Qed.

(** Without an assertion and without a token, every access raises
    [TypeError] and nothing happens: the endpoint is not called. *)
Theorem access_without_assertion (a : access) (st : Process E) :
  __token (self st) = None → saml_xml (self st) = None →
  perform a st = (inl TypeError, st).
Proof.
  intros Ht Hxml.
  assert (Htok : token st = (inl TypeError, st)).
  { unfold token, mbind, M_bind, bind, get_self, lift, base64_encoded_saml.
    by rewrite Ht, Hxml. }
  destruct a; unfold perform, access_key_id, secret_access_key, session_token,
    expiration, mbind, M_bind, bind; by rewrite Htok.
Qed.

(** What [token] does to the state. *)
Lemma token_effects (st : Process E) :
  let st' := (token st).2 in
  config (self st') = config (self st)
  ∧ saml_xml (self st') = saml_xml (self st)
  ∧ __roles (self st') = __roles (self st)
  ∧ (∀ name, name ≠ "AWS_PROFILE" → environ st' !! name = environ st !! name)
  ∧ ∃ new, sts_calls st' = (sts_calls st ++ new)%list
           ∧ (length new <= 2)%nat
           ∧ Forall (fun v =>
                RoleArn v = Config.role_arn (config (self st))
                ∧ PrincipalArn v = Config.provider (config (self st))
                ∧ Some (SAMLAssertion v) = b64encode <$> saml_xml (self st)) new.
Proof.
  cbn zeta.
  assert (Hsame : ∀ s : Process E, s = st →
    config (self s) = config (self st) ∧ saml_xml (self s) = saml_xml (self st)
    ∧ __roles (self s) = __roles (self st)
    ∧ (∀ name, name ≠ "AWS_PROFILE" → environ s !! name = environ st !! name)
    ∧ ∃ new, sts_calls s = (sts_calls st ++ new)%list ∧ (length new <= 2)%nat
             ∧ Forall (fun v =>
                  RoleArn v = Config.role_arn (config (self st))
                  ∧ PrincipalArn v = Config.provider (config (self st))
                  ∧ Some (SAMLAssertion v) = b64encode <$> saml_xml (self st)) new).
  { intros s ->. repeat split. exists []. rewrite app_nil_r.
    repeat split; [cbn; lia | constructor]. }
  destruct (__token (self st)) as [t|] eqn:Ht.
  { rewrite (token_cached st t Ht). cbn [snd]. by apply Hsame. }
  destruct (saml_xml (self st)) as [xml|] eqn:Hxml.
  2: { replace (token st) with (@inl exn Token TypeError, st).
       - cbn [snd]. by apply Hsame.
       - unfold token, mbind, M_bind, bind, get_self, lift, base64_encoded_saml.
         by rewrite Ht, Hxml. }
  rewrite (token_fetch st xml Ht Hxml).
  pose proof (assume_role_sent (Config.role_arn (config (self st)))
                (Config.provider (config (self st))) (b64encode xml)
                (Config.duration (config (self st))) true st)
    as (Hself & Henv & new & Hlog & Hall & Hlen).
  assert (Hnew : Forall (fun v =>
            RoleArn v = Config.role_arn (config (self st))
            ∧ PrincipalArn v = Config.provider (config (self st))
            ∧ Some (SAMLAssertion v) = b64encode <$> Some xml) new).
  { eapply Forall_impl; [exact Hall|]. intros v (-> & -> & -> & _). done. }
  destruct (assume_role _ _ _ _ _ _) as [[e|t] st1]; cbn [snd self config saml_xml
    __roles environ sts_calls] in *; rewrite ?Hself;
    (repeat split; [done..|]); by exists new.
Qed.

(** An access changes nothing of the broker object but its token and no
    environment variable but [AWS_PROFILE].  It makes at most two endpoint
    calls, each for the configured role and provider with the base64 text of
    the assertion. *)
Theorem access_calls_carry_config (a : access) (st : Process E) :
  let st' := (perform a st).2 in
  config (self st') = config (self st)
  ∧ saml_xml (self st') = saml_xml (self st)
  ∧ __roles (self st') = __roles (self st)
  ∧ (∀ name, name ≠ "AWS_PROFILE" → environ st' !! name = environ st !! name)
  ∧ ∃ new, sts_calls st' = (sts_calls st ++ new)%list
           ∧ (length new <= 2)%nat
           ∧ Forall (fun v =>
                RoleArn v = Config.role_arn (config (self st))
                ∧ PrincipalArn v = Config.provider (config (self st))
                ∧ Some (SAMLAssertion v) = b64encode <$> saml_xml (self st)) new.
Proof. cbn zeta. rewrite perform_state. apply token_effects. Qed.

End Accesses.

(** *** Accesses on scripted endpoints *)

(** The endpoint refuses; the broker still has no token afterwards. *)
Lemma token_failure_not_cached_example :
  let st := example_process ∅
              {| constructions := [];
                 responses := [inl (OtherError "EndpointConnectionError")] |} in
  (@token _ _ scripted st).1 = inl (OtherError "EndpointConnectionError")
  ∧ self (@token _ _ scripted st).2 = self st
  ∧ __token (self (@token _ _ scripted st).2) = None.
Proof.
  cbn zeta. set (st := example_process _ _). split; [reflexivity|].
  exact (@token_failure_not_cached _ _ scripted st (@token _ _ scripted st).2
           (OtherError "EndpointConnectionError") eq_refl).
Defined.

(** A broker built without an assertion and without a cache. *)
Lemma access_without_assertion_example :
  let st := {| self := Amazon_init example_config None; environ := ∅;
               sts_calls := []; ext := {| constructions := []; responses := [] |} |} in
  @perform _ _ scripted GetSessionToken st = (inl TypeError, st).
Proof.
  cbn zeta.
  match goal with
  | |- perform _ ?st = _ =>
      exact (@access_without_assertion _ _ scripted GetSessionToken st eq_refl eq_refl)
  end.
Defined.

(** ** The two printing methods *)

(** The template with its three fields filled: the arguments go in as they
    are, between the single quotes of the template. *)
Lemma format_export_template (a s t : string) :
  format export_template [a; s; t] =
    inr ("export AWS_ACCESS_KEY_ID='" ++ a ++ "' AWS_SECRET_ACCESS_KEY='" ++ s
         ++ "' AWS_SESSION_TOKEN='" ++ t ++ "'").
Proof. reflexivity. Qed.

Section Printing.
Context {E C : Type} `{Boto3 E C} `{DatetimeText} `{Json}.

(** After the first accessor has the token, the others read the same one. *)
Lemma export_line_unfold (st : Process E) :
  export_line st =
    match token st with
    | (inr t, st1) =>
        (a ← dict_getitem (Credentials t) "AccessKeyId";
         s ← dict_getitem (Credentials t) "SecretAccessKey";
         k ← dict_getitem (Credentials t) "SessionToken";
         format export_template [str a; str s; str k], st1)
    | (inl e, st1) => (inl e, st1)
    end.
Proof.
  unfold export_line, access_key_id, secret_access_key, session_token,
    mbind, M_bind, bind, lift, exn_bind.
  destruct (token st) as [[e|t] st1] eqn:Htok; [done|].
  pose proof (token_cached st1 t (token_stores _ _ _ Htok)) as Hcached.
  destruct (dict_getitem (Credentials t) "AccessKeyId") as [e|a]; [done|].
  rewrite Hcached.
  destruct (dict_getitem (Credentials t) "SecretAccessKey") as [e|s]; [done|].
  rewrite Hcached.
  by destruct (dict_getitem (Credentials t) "SessionToken") as [e|k].
Qed.

Lemma credential_process_text_unfold (st : Process E) :
  credential_process_text st =
    match token st with
    | (inr t, st1) =>
        (a ← dict_getitem (Credentials t) "AccessKeyId";
         s ← dict_getitem (Credentials t) "SecretAccessKey";
         k ← dict_getitem (Credentials t) "SessionToken";
         e ← dict_getitem (Credentials t) "Expiration";
         iso ← call_isoformat e;
         ja ← to_json a;
         js ← to_json s;
         jk ← to_json k;
         mret (json_dumps [("Version", JInt 1); ("AccessKeyId", ja);
                           ("SecretAccessKey", js); ("SessionToken", jk);
                           ("Expiration", JStr iso)]), st1)
    | (inl e, st1) => (inl e, st1)
    end.
Proof.
  unfold credential_process_text, access_key_id, secret_access_key, session_token,
    expiration, mbind, M_bind, bind, lift, exn_bind.
  destruct (token st) as [[e|t] st1] eqn:Htok; [done|].
  pose proof (token_cached st1 t (token_stores _ _ _ Htok)) as Hcached.
  destruct (dict_getitem (Credentials t) "AccessKeyId") as [e|a]; [done|].
  rewrite Hcached.
  destruct (dict_getitem (Credentials t) "SecretAccessKey") as [e|s]; [done|].
  rewrite Hcached.
  destruct (dict_getitem (Credentials t) "SessionToken") as [e|k]; [done|].
  rewrite Hcached.
  destruct (dict_getitem (Credentials t) "Expiration") as [e|x]; [done|].
  by destruct (call_isoformat x).
Qed.

(** What either printing method does to the console, given the text it
    computes. *)
Lemma print_after (text : M E string) (con : Console E) (body : Token → exn + string) :
  (∀ st, text st = match token st with
                   | (inr t, st1) => (body t, st1)
                   | (inl e, st1) => (inl e, st1)
                   end) →
  let r := match run text con with
           | (inr out, con') => (inr tt, print out con')
           | (inl e, con') => (inl e, con')
           end in
  process r.2 = (token (process con)).2
  ∧ (∀ e, r.1 = inl e → stdout r.2 = stdout con)
  ∧ (r.1 = inr tt →
     ∃ t out, (token (process con)).1 = inr t ∧ body t = inr out
              ∧ stdout r.2 = stdout con ++ out ++ newline).
Proof.
  intros Htext. cbn zeta. unfold run. rewrite Htext.
  destruct (token (process con)) as [[e|t] st1]; cbn.
  - split; [done|]. split; [done | intros [=]].
  - destruct (body t) as [e|out] eqn:Hbody; cbn.
    + split; [done|]. split; [done | intros [=]].
    + split; [done|]. split; [intros ? [=]|]. intros _. by exists t, out.
Qed.

(** [print_export_line] with a token in place whose three fields are there:
    one line is printed, the template with the three values put in as they
    are; nothing else changes. *)
Theorem print_export_line_output (con : Console E) (t : Token) (a s k : pyval) :
  __token (self (process con)) = Some t →
  Credentials t !! "AccessKeyId" = Some a →
  Credentials t !! "SecretAccessKey" = Some s →
  Credentials t !! "SessionToken" = Some k →
  print_export_line con =
    (inr tt,
     {| process := process con;
        stdout := stdout con
                  ++ ("export AWS_ACCESS_KEY_ID='" ++ str a
                      ++ "' AWS_SECRET_ACCESS_KEY='" ++ str s
                      ++ "' AWS_SESSION_TOKEN='" ++ str k ++ "'")
                  ++ newline |}).
Proof.
  intros Ht Ha Hs Hk. unfold print_export_line, run.
  rewrite export_line_unfold, (token_cached _ _ Ht).
  unfold dict_getitem, mbind, exn_bind. rewrite Ha, Hs, Hk.
  by rewrite format_export_template.
Qed.

(** [print_export_line] in general: it leaves the process as one access to
    the token leaves it (so at most two endpoint calls are made); when it
    raises, nothing is printed; when it returns, exactly one line was
    printed, the export line of three values. *)
Theorem print_export_line_effects (con : Console E) :
  let r := print_export_line con in
  process r.2 = (token (process con)).2
  ∧ (∃ new, sts_calls (process r.2) = (sts_calls (process con) ++ new)%list
            ∧ (length new <= 2)%nat)
  ∧ (∀ e, r.1 = inl e → stdout r.2 = stdout con)
  ∧ (r.1 = inr tt →
     ∃ a s k, stdout r.2 =
       stdout con
       ++ ("export AWS_ACCESS_KEY_ID='" ++ a ++ "' AWS_SECRET_ACCESS_KEY='" ++ s
           ++ "' AWS_SESSION_TOKEN='" ++ k ++ "'")
       ++ newline).
Proof.
  cbn zeta.
  destruct (print_after export_line con _ export_line_unfold) as (Hproc & Herr & Hok).
  fold (print_export_line con) in Hproc, Herr, Hok.
  split; [done|]. split; [|split; [done|]].
  - rewrite Hproc. destruct (token_effects (process con))
      as (_ & _ & _ & _ & new & Hlog & Hlen & _).
    by exists new.
  - intros Hr. destruct (Hok Hr) as (t & out & _ & Hbody & Hout).
    unfold mbind, exn_bind in Hbody.
    destruct (dict_getitem _ "AccessKeyId") as [?|a]; [done|].
    destruct (dict_getitem _ "SecretAccessKey") as [?|s]; [done|].
    destruct (dict_getitem _ "SessionToken") as [?|k]; [done|].
    rewrite format_export_template in Hbody. injection Hbody as <-.
    by exists (str a), (str s), (str k).
Qed.

(** [print_export_line] with a token in place that lacks a field: [KeyError]
    for the first field missing in the order access key, secret key, session
    token; nothing is printed and nothing changes. *)
Theorem print_export_line_missing_key (con : Console E) (t : Token) :
  __token (self (process con)) = Some t →
  (Credentials t !! "AccessKeyId" = None →
   print_export_line con = (inl (KeyError "AccessKeyId"), con))
  ∧ (is_Some (Credentials t !! "AccessKeyId") →
     Credentials t !! "SecretAccessKey" = None →
     print_export_line con = (inl (KeyError "SecretAccessKey"), con))
  ∧ (is_Some (Credentials t !! "AccessKeyId") →
     is_Some (Credentials t !! "SecretAccessKey") →
     Credentials t !! "SessionToken" = None →
     print_export_line con = (inl (KeyError "SessionToken"), con)).
Proof.
  intros Ht.
  assert (Hcon : {| process := process con; stdout := stdout con |} = con)
    by by destruct con.
  unfold print_export_line, run.
  rewrite export_line_unfold, (token_cached _ _ Ht).
  unfold dict_getitem, mbind, exn_bind.
  repeat split.
  - intros ->. by rewrite Hcon.
  - intros [a ->] ->. by rewrite Hcon.
  - intros [a ->] [s ->] ->. by rewrite Hcon.
Qed.

(** [print_credential_process] with a token in place whose first three
    fields are strings and whose expiration is an instant: one line is
    printed, the dump of the five entries [Version] (the number 1),
    [AccessKeyId], [SecretAccessKey], [SessionToken] and [Expiration] (in ISO
    format), in this order. *)
Theorem print_credential_process_output (con : Console E) (t : Token)
    (a s k : string) (d : Z) :
  __token (self (process con)) = Some t →
  Credentials t !! "AccessKeyId" = Some (PyStr a) →
  Credentials t !! "SecretAccessKey" = Some (PyStr s) →
  Credentials t !! "SessionToken" = Some (PyStr k) →
  Credentials t !! "Expiration" = Some (PyDatetime d) →
  print_credential_process con =
    (inr tt,
     {| process := process con;
        stdout := stdout con
                  ++ json_dumps [("Version", JInt 1); ("AccessKeyId", JStr a);
                                 ("SecretAccessKey", JStr s); ("SessionToken", JStr k);
                                 ("Expiration", JStr (isoformat d))]
                  ++ newline |}).
Proof.
  intros Ht Ha Hs Hk Hd. unfold print_credential_process, run.
  rewrite credential_process_text_unfold, (token_cached _ _ Ht).
  unfold dict_getitem, mbind, exn_bind. by rewrite Ha, Hs, Hk, Hd.
Qed.

(** [print_credential_process] needs the expiration to be an instant: with a
    token in place that has all four fields but holds the expiration as
    text, it raises [AttributeError] and prints nothing. *)
Theorem print_credential_process_text_expiration (con : Console E) (t : Token)
    (a s k : pyval) (x : string) :
  __token (self (process con)) = Some t →
  Credentials t !! "AccessKeyId" = Some a →
  Credentials t !! "SecretAccessKey" = Some s →
  Credentials t !! "SessionToken" = Some k →
  Credentials t !! "Expiration" = Some (PyStr x) →
  print_credential_process con =
    (inl (AttributeError "'str' object has no attribute 'isoformat'"), con).
Proof.
  intros Ht Ha Hs Hk Hx. unfold print_credential_process, run.
  rewrite credential_process_text_unfold, (token_cached _ _ Ht).
  unfold dict_getitem, mbind, exn_bind. rewrite Ha, Hs, Hk, Hx. cbn.
  by destruct con.
Qed.

(** [print_credential_process] in general: it leaves the process as one
    access to the token leaves it (at most two endpoint calls); when it
    raises, nothing is printed; when it returns, exactly one line was
    printed, a dump of five entries whose first is [Version] with the
    number 1. *)
Theorem print_credential_process_effects (con : Console E) :
  let r := print_credential_process con in
  process r.2 = (token (process con)).2
  ∧ (∃ new, sts_calls (process r.2) = (sts_calls (process con) ++ new)%list
            ∧ (length new <= 2)%nat)
  ∧ (∀ e, r.1 = inl e → stdout r.2 = stdout con)
  ∧ (r.1 = inr tt →
     ∃ a s k iso, stdout r.2 =
       stdout con
       ++ json_dumps [("Version", JInt 1); ("AccessKeyId", JStr a);
                      ("SecretAccessKey", JStr s); ("SessionToken", JStr k);
                      ("Expiration", JStr iso)]
       ++ newline).
Proof.
  cbn zeta.
  destruct (print_after credential_process_text con _ credential_process_text_unfold)
    as (Hproc & Herr & Hok).
  fold (print_credential_process con) in Hproc, Herr, Hok.
  split; [done|]. split; [|split; [done|]].
  - rewrite Hproc. destruct (token_effects (process con))
      as (_ & _ & _ & _ & new & Hlog & Hlen & _).
    by exists new.
  - intros Hr. destruct (Hok Hr) as (t & out & _ & Hbody & Hout).
    unfold mbind, exn_bind in Hbody.
    destruct (dict_getitem _ "AccessKeyId") as [?|a]; [done|].
    destruct (dict_getitem _ "SecretAccessKey") as [?|s]; [done|].
    destruct (dict_getitem _ "SessionToken") as [?|k]; [done|].
    destruct (dict_getitem _ "Expiration") as [?|x]; [done|].
    destruct (call_isoformat x) as [?|iso]; [done|].
    destruct a as [a|?]; [|done]. destruct s as [s|?]; [|done].
    destruct k as [k|?]; [|done]. cbn in Hbody. injection Hbody as <-.
    by exists a, s, k, iso.
Qed.

End Printing.

(** *** The printing methods on example credentials *)

(** The example of the specification: the credential AK, SK, TOK. *)
Lemma print_export_line_output_example :
  let con := example_console
    {[ "AccessKeyId" := PyStr "AK"; "SecretAccessKey" := PyStr "SK";
       "SessionToken" := PyStr "TOK"; "Expiration" := PyDatetime 0 ]} in
  @print_export_line _ _ scripted example_texts con =
    (inr tt,
     {| process := process con;
        stdout := "export AWS_ACCESS_KEY_ID='AK' AWS_SECRET_ACCESS_KEY='SK' AWS_SESSION_TOKEN='TOK'"
                  ++ newline |}).
Proof.
  cbn zeta. set (con := example_console _).
  exact (@print_export_line_output _ _ scripted example_texts con
           {| Credentials := {[ "AccessKeyId" := PyStr "AK"; "SecretAccessKey" := PyStr "SK";
                                "SessionToken" := PyStr "TOK"; "Expiration" := PyDatetime 0 ]} |}
           (PyStr "AK") (PyStr "SK") (PyStr "TOK") eq_refl eq_refl eq_refl eq_refl).
Defined.

(** A cached credential without a session token. *)
Lemma print_export_line_missing_key_example :
  let con := example_console
    {[ "AccessKeyId" := PyStr "AK"; "SecretAccessKey" := PyStr "SK" ]} in
  @print_export_line _ _ scripted example_texts con = (inl (KeyError "SessionToken"), con).
Proof.
  cbn zeta. set (con := example_console _).
  destruct (@print_export_line_missing_key _ _ scripted example_texts con
              {| Credentials := {[ "AccessKeyId" := PyStr "AK";
                                   "SecretAccessKey" := PyStr "SK" ]} |} eq_refl)
    as (_ & _ & Hthird).
  apply Hthird; [by eexists | by eexists | reflexivity].
Defined.

Lemma print_credential_process_output_example :
  let con := example_console
    {[ "AccessKeyId" := PyStr "AK"; "SecretAccessKey" := PyStr "SK";
       "SessionToken" := PyStr "TOK"; "Expiration" := PyDatetime 0 ]} in
  (@print_credential_process _ _ scripted example_texts plain_json con).1 = inr tt
  ∧ stdout (@print_credential_process _ _ scripted example_texts plain_json con).2 =
      @json_dumps plain_json
        [("Version", JInt 1); ("AccessKeyId", JStr "AK"); ("SecretAccessKey", JStr "SK");
         ("SessionToken", JStr "TOK"); ("Expiration", JStr "2024-01-01T12:00:00+00:00")]
      ++ newline.
Proof.
  cbn zeta. set (con := example_console _).
  rewrite (@print_credential_process_output _ _ scripted example_texts plain_json con
             {| Credentials := {[ "AccessKeyId" := PyStr "AK"; "SecretAccessKey" := PyStr "SK";
                                  "SessionToken" := PyStr "TOK"; "Expiration" := PyDatetime 0 ]} |}
             "AK" "SK" "TOK" 0 eq_refl eq_refl eq_refl eq_refl eq_refl).
  split; reflexivity.
Defined.

(** A credential whose expiration is kept as text. *)
Lemma print_credential_process_text_expiration_example :
  let con := example_console
    {[ "AccessKeyId" := PyStr "AK"; "SecretAccessKey" := PyStr "SK";
       "SessionToken" := PyStr "TOK"; "Expiration" := PyStr "2024-01-01T12:00:00+00:00" ]} in
  @print_credential_process _ _ scripted example_texts plain_json con =
    (inl (AttributeError "'str' object has no attribute 'isoformat'"), con).
Proof.
  cbn zeta. set (con := example_console _).
  exact (@print_credential_process_text_expiration _ _ scripted example_texts plain_json con
           {| Credentials := {[ "AccessKeyId" := PyStr "AK"; "SecretAccessKey" := PyStr "SK";
                                "SessionToken" := PyStr "TOK";
                                "Expiration" := PyStr "2024-01-01T12:00:00+00:00" ]} |}
           (PyStr "AK") (PyStr "SK") (PyStr "TOK") "2024-01-01T12:00:00+00:00"
           eq_refl eq_refl eq_refl eq_refl eq_refl).
Defined.

(** ** Role extraction: which text is read, which binding wins, what is raised *)

(** Induction on a document: a property of the children gives the property
    of the element. *)
Lemma node_rect_Forall (P : node → Prop) :
  (∀ tag attrib children, Forall P children → P (Element tag attrib children)) →
  (∀ data, P (Text data)) →
  ∀ n, P n.
Proof.
  intros Helement Htext.
  fix IH 1. intros [tag attrib children|data]; [|apply Htext].
  apply Helement. induction children as [|c children IHc]; constructor; [apply IH | exact IHc].
Qed.

Lemma elem_of_flat_map {A B} (f : A → list B) (l : list A) (y : B) :
  y ∈ flat_map f l ↔ ∃ x, x ∈ l ∧ y ∈ f x.
Proof.
  induction l as [|a l IH]; cbn [flat_map].
  - split; [by intros ?%elem_of_nil | by intros (? & ?%elem_of_nil & _)].
  - rewrite elem_of_app, IH. split.
    + intros [Hy|(x & Hx & Hy)]; [exists a | exists x]; split; by (left || right || idtac).
    + intros (x & [->|Hx]%elem_of_cons & Hy); [by left | right; by exists x].
Qed.

(** The text nodes below an element are those below the elements under it
    and its own. *)
Lemma text_nodes_of_descendant (n e : node) (x : string) :
  e ∈ elements n → x ∈ text_nodes e → x ∈ text_nodes n.
Proof.
  revert n. apply (node_rect_Forall (fun n => e ∈ elements n → x ∈ text_nodes e →
                                               x ∈ text_nodes n)).
  - intros tag attrib children IH [->|He]%elem_of_cons Hx; [done|].
    cbn [text_nodes]. apply elem_of_flat_map in He as (c & Hc & He).
    apply elem_of_flat_map. exists c. split; [done|].
    rewrite Forall_forall in IH. by apply IH.
  - intros data []%elem_of_nil.
Qed.

(** The text read by the query of [roles]: a text node is selected exactly
    when it lies below an element whose [Name] attribute is the one asked
    for.  Text anywhere else in the document is not read. *)
Theorem xpath_Name_text_selects (name : string) (n : node) (x : string) :
  x ∈ xpath_Name_text name n ↔
  ∃ e, e ∈ elements n ∧ get e "Name" = Some name ∧ x ∈ text_nodes e.
Proof.
  revert n. apply (node_rect_Forall (fun n => x ∈ xpath_Name_text name n ↔
    ∃ e, e ∈ elements n ∧ get e "Name" = Some name ∧ x ∈ text_nodes e)).
  - intros tag attrib children IH. rewrite Forall_forall in IH.
    cbn [xpath_Name_text]. destruct (bool_decide _) eqn:Hname.
    + apply bool_decide_eq_true in Hname. split.
      * intros Hx. exists (Element tag attrib children).
        split; [by left|]. by split.
      * intros (e & He & _ & Hx).
        by apply (text_nodes_of_descendant (Element tag attrib children) e).
    + apply bool_decide_eq_false in Hname. rewrite elem_of_flat_map. split.
      * intros (c & Hc & Hx). apply IH in Hx as (e & He & Hn & Hx); [|done].
        exists e. split; [|done]. right. apply elem_of_flat_map. by exists c.
      * intros (e & [->|He]%elem_of_cons & Hn & Hx); [done|].
        apply elem_of_flat_map in He as (c & Hc & He).
        exists c. split; [done|]. apply IH; [done|]. by exists e.
  - intros data. cbn. split; [by intros ?%elem_of_nil | by intros (? & ?%elem_of_nil & _)].
Qed.

Lemma for_each_roles_step_inl (xs : list string) (roles : gmap string string) (e : exn) :
  for_each roles_step roles xs = inl e →
  e = IndexError
  ∧ Exists (fun x => has_iam_marker x = true ∧ contains "," x = false) xs.
Proof.
  revert roles. induction xs as [|x xs IH]; intros roles; cbn [for_each]; [done|].
  destruct (roles_step roles x) as [e'|roles'] eqn:Hstep.
  - intros [= ->]. apply roles_step_raises in Hstep as (Hm & Hc & ->).
    split; [done|]. by left.
  - intros Hrest. destruct (IH _ Hrest) as [-> Hex]. split; [done|]. by right.
Qed.

Section RolesErrors.
Context `{Lxml}.

(** Everything [roles] can raise: [AssertionError] when the broker has no
    assertion, the parser's own exception when the assertion does not parse,
    and [IndexError] when the document parses and a text node under the role
    attribute has a marker and no comma.  Nothing else. *)
Theorem roles_raises_only (this : Amazon) (e : exn) :
  roles this = inl e →
  (saml_xml this = None ∧ e = AssertionError "Cannot load roles without saml.")
  ∨ (∃ xml, saml_xml this = Some xml ∧ fromstring xml = inl e)
  ∨ (∃ xml doc, saml_xml this = Some xml ∧ fromstring xml = inr doc
       ∧ e = IndexError
       ∧ Exists (fun x => has_iam_marker x = true ∧ contains "," x = false)
                (xpath_Name_text role_attribute doc)).
Proof.
  unfold roles, mbind, exn_bind.
  destruct (saml_xml this) as [xml|]; [|intros [= <-]; by left].
  destruct (fromstring xml) as [e'|doc] eqn:Hdoc.
  - intros [= ->]. right; left. by exists xml.
  - intros (-> & Hex)%for_each_roles_step_inl. right; right. by exists xml, doc.
Qed.

End RolesErrors.

(** An assertion that is not XML: the parser's exception comes out of
    [roles] as it is. *)
Lemma roles_raises_only_example :
  let this := Amazon_init example_config (Some "not xml") in
  @roles (parser_of []) this = inl (OtherError "XMLSyntaxError")
  ∧ ((saml_xml this = None
      ∧ OtherError "XMLSyntaxError" = AssertionError "Cannot load roles without saml.")
     ∨ (∃ xml, saml_xml this = Some xml
               ∧ @fromstring (parser_of []) xml = inl (OtherError "XMLSyntaxError"))
     ∨ (∃ xml doc, saml_xml this = Some xml ∧ @fromstring (parser_of []) xml = inr doc
          ∧ OtherError "XMLSyntaxError" = IndexError
          ∧ Exists (fun x => has_iam_marker x = true ∧ contains "," x = false)
                   (xpath_Name_text role_attribute doc))).
Proof.
  cbn zeta. split; [reflexivity|].
  exact (@roles_raises_only (parser_of []) (Amazon_init example_config (Some "not xml"))
           (OtherError "XMLSyntaxError") eq_refl).
Defined.

(** ** Role extraction: the last binding of a key is the one kept *)

(** The first and second field of a text node. *)
Lemma roles_of_texts_snoc (xs : list string) (x : string) :
  roles_of_texts (xs ++ [x]) =
    if has_iam_marker x
    then <[default "" (split "," x !! 0%nat) := default "" (split "," x !! 1%nat)]>
           (roles_of_texts xs)
    else roles_of_texts xs.
Proof. unfold roles_of_texts. by rewrite foldl_app. Qed.

Lemma roles_of_texts_last_wins (xs : list string) (k v : string) :
  roles_of_texts xs !! k = Some v ↔
  ∃ before x after,
    xs = (before ++ x :: after)%list
    ∧ has_iam_marker x = true
    ∧ default "" (split "," x !! 0%nat) = k
    ∧ default "" (split "," x !! 1%nat) = v
    ∧ Forall (fun y => has_iam_marker y = true →
                       default "" (split "," y !! 0%nat) ≠ k) after.
Proof.
  induction xs as [|y xs IH] using rev_ind.
  - split; [done|]. intros (before & x & after & Hxs & _).
    by destruct before.
  - rewrite roles_of_texts_snoc.
    destruct (has_iam_marker y) eqn:Hy.
    + destruct (decide (default "" (split "," y !! 0%nat) = k)) as [Hk|Hk].
      * rewrite Hk, lookup_insert_eq. split.
        -- intros [= <-]. exists xs, y, []. by repeat split.
        -- intros (before & x & after & Hxs & Hx & Hkx & Hvx & Hafter).
           destruct after as [|z after] using rev_ind.
           ++ apply app_inj_tail in Hxs as [_ ->]. by rewrite Hvx.
           ++ clear IHafter. rewrite app_comm_cons, app_assoc in Hxs.
              apply app_inj_tail in Hxs as [_ ->].
              apply Forall_app in Hafter as [_ Hz]. apply Forall_inv in Hz.
              by destruct (Hz Hy).
      * rewrite lookup_insert_ne by done. rewrite IH. split.
        -- intros (before & x & after & -> & Hx & Hkx & Hvx & Hafter).
           exists before, x, (after ++ [y])%list. rewrite <- app_assoc.
           repeat split; try done. apply Forall_app. split; [done|].
           by apply Forall_singleton.
        -- intros (before & x & after & Hxs & Hx & Hkx & Hvx & Hafter).
           destruct after as [|z after] using rev_ind.
           ++ apply app_inj_tail in Hxs as [_ ->]. done.
           ++ clear IHafter. rewrite app_comm_cons, app_assoc in Hxs.
              apply app_inj_tail in Hxs as [-> ->].
              apply Forall_app in Hafter as [Hafter _].
              by exists before, x, after.
    + rewrite IH. split.
      * intros (before & x & after & -> & Hx & Hkx & Hvx & Hafter).
        exists before, x, (after ++ [y])%list. rewrite <- app_assoc.
        repeat split; try done. apply Forall_app. split; [done|].
        apply Forall_singleton. congruence.
      * intros (before & x & after & Hxs & Hx & Hkx & Hvx & Hafter).
        destruct after as [|z after] using rev_ind.
        -- apply app_inj_tail in Hxs as [_ ->]. congruence.
        -- clear IHafter. rewrite app_comm_cons, app_assoc in Hxs.
           apply app_inj_tail in Hxs as [-> ->].
           apply Forall_app in Hafter as [Hafter _].
           by exists before, x, after.
Qed.

Lemma for_each_roles_step_inr (xs : list string) (roles m : gmap string string) :
  for_each roles_step roles xs = inr m →
  Forall (fun x => has_iam_marker x = true → contains "," x = true) xs.
Proof.
  revert roles. induction xs as [|x xs IH]; intros roles; cbn [for_each]; [by constructor|].
  destruct (roles_step roles x) as [e|roles'] eqn:Hstep; [done|].
  intros Hrest. constructor; [|by eapply IH].
  intros Hm. destruct (contains "," x) eqn:Hc; [done|].
  assert (roles_step roles x = inl IndexError) as Hr by by apply roles_step_raises.
  congruence.
Qed.

Section RolesBindings.
Context `{Lxml}.

(** When [roles] returns a mapping, a key is bound in it to the second field
    of the last text node under the role attribute, in document order, that
    has a marker and this key as its first field; a key that no such node
    carries is not bound. *)
Theorem roles_last_binding_wins (this : Amazon) (xml : string) (doc : node)
    (m : gmap string string) (k v : string) :
  saml_xml this = Some xml → fromstring xml = inr doc → roles this = inr m →
  m !! k = Some v ↔
  ∃ before x after,
    xpath_Name_text role_attribute doc = (before ++ x :: after)%list
    ∧ has_iam_marker x = true
    ∧ default "" (split "," x !! 0%nat) = k
    ∧ default "" (split "," x !! 1%nat) = v
    ∧ Forall (fun y => has_iam_marker y = true →
                       default "" (split "," y !! 0%nat) ≠ k) after.
Proof.
  intros Hxml Hdoc Hroles. unfold roles, mbind, exn_bind in Hroles.
  rewrite Hxml, Hdoc in Hroles.
  pose proof (for_each_roles_step_inr _ _ _ Hroles) as Hall.
  rewrite (for_each_roles_step _ _ Hall) in Hroles. injection Hroles as <-.
  apply roles_of_texts_last_wins.
Qed.

End RolesBindings.

(** Two attribute values name the same role with different providers: the
    mapping keeps the provider of the second. *)
Lemma roles_last_binding_wins_example :
  let xml := "<samlp:Response>...</samlp:Response>" in
  let first := "arn:aws:iam::111111111111:role/Foo,arn:aws:iam::111111111111:saml-provider/One" in
  let second := "arn:aws:iam::111111111111:role/Foo,arn:aws:iam::111111111111:saml-provider/Two" in
  let doc := example_document "" "" [first; second] in
  let this := Amazon_init example_config (Some xml) in
  @roles (parser_of [(xml, doc)]) this
    = inr {[ "arn:aws:iam::111111111111:role/Foo"
               := "arn:aws:iam::111111111111:saml-provider/Two" ]}
  ∧ ∃ before x after,
      xpath_Name_text role_attribute doc = (before ++ x :: after)%list
      ∧ has_iam_marker x = true
      ∧ default "" (split "," x !! 0%nat) = "arn:aws:iam::111111111111:role/Foo"
      ∧ default "" (split "," x !! 1%nat) = "arn:aws:iam::111111111111:saml-provider/Two"
      ∧ Forall (fun y => has_iam_marker y = true →
                  default "" (split "," y !! 0%nat) ≠ "arn:aws:iam::111111111111:role/Foo")
               after.
Proof.
  cbn zeta.
  set (xml := "<samlp:Response>...</samlp:Response>").
  set (doc := example_document _ _ _).
  split; [vm_compute; reflexivity|].
  apply (@roles_last_binding_wins (parser_of [(xml, doc)])
           (Amazon_init example_config (Some xml)) xml doc
           {[ "arn:aws:iam::111111111111:role/Foo"
                := "arn:aws:iam::111111111111:saml-provider/Two" ]}
           "arn:aws:iam::111111111111:role/Foo"
           "arn:aws:iam::111111111111:saml-provider/Two" eq_refl eq_refl).
  - vm_compute. reflexivity.
  - vm_compute. reflexivity.
Defined.

(** ** The validity of an assertion over time *)

Section ValidityOverTime.
Context `{Lxml} `{Strptime}.

(** An input is either never valid, or valid exactly during one half-open
    interval of time. *)
Lemma is_valid_saml_assertion_cases (saml_xml : option string) :
  (∀ now, is_valid_saml_assertion now saml_xml = false)
  ∨ ∃ not_before not_on_or_after,
      ∀ now, is_valid_saml_assertion now saml_xml
             = (not_before <=? now) && (now <? not_on_or_after).
Proof.
  destruct saml_xml as [xml|]; [|by left].
  unfold is_valid_saml_assertion, is_valid_saml_assertion_try, mbind, exn_bind,
    list_getitem, strptime_arg.
  destruct (fromstring xml) as [e|doc]; [by left|].
  destruct (iter conditions_tag doc !! 0%nat) as [c|]; [|by left].
  destruct (get c "NotBefore") as [nb_str|]; [|by left].
  destruct (strptime nb_str timestamp_format) as [e|not_before];
    [left; intros now; by destruct (get c "NotOnOrAfter")|].
  destruct (get c "NotOnOrAfter") as [noa_str|]; [|by left].
  destruct (strptime noa_str timestamp_format) as [e|not_on_or_after]; [by left|].
  right. exists not_before, not_on_or_after. intros now.
  by destruct ((not_before <=? now) && (now <? not_on_or_after)).
Qed.

(** An assertion valid at two instants is valid at every instant between
    them. *)
Theorem is_valid_saml_assertion_between (saml_xml : option string)
    (earlier now later : datetime) :
  is_valid_saml_assertion earlier saml_xml = true →
  is_valid_saml_assertion later saml_xml = true →
  earlier <= now <= later →
  is_valid_saml_assertion now saml_xml = true.
Proof.
  destruct (is_valid_saml_assertion_cases saml_xml) as [Hnever|(nb & noa & Hwin)].
  { by rewrite Hnever. }
  rewrite !Hwin. intros [? ?]%andb_true_iff [? ?]%andb_true_iff Hnow.
  apply andb_true_iff. split; lia.
Qed.

(** An assertion that was valid and is no longer valid stays invalid: once
    expired, no later instant finds it valid. *)
Theorem is_valid_saml_assertion_expired_for_good (saml_xml : option string)
    (earlier expired later : datetime) :
  is_valid_saml_assertion earlier saml_xml = true →
  is_valid_saml_assertion expired saml_xml = false →
  earlier <= expired <= later →
  is_valid_saml_assertion later saml_xml = false.
Proof.
  destruct (is_valid_saml_assertion_cases saml_xml) as [Hnever|(nb & noa & Hwin)].
  { by rewrite Hnever. }
  rewrite !Hwin. intros [Hnb Hnoa]%andb_true_iff Hexp Hnow.
  apply andb_false_iff in Hexp. apply andb_false_iff. right.
  destruct Hexp as [Hexp|Hexp]; lia.
Qed.

End ValidityOverTime.

(** The assertion valid from 12:00:00 to 12:05:00: valid at 12:01 and at
    12:04, so valid at 12:02. *)
Lemma is_valid_saml_assertion_between_example :
  let xml := "<samlp:Response>...</samlp:Response>" in
  let parser := parser_of
    [(xml, example_document "2024-01-01T12:00:00.000000Z" "2024-01-01T12:05:00.000000Z" [])] in
  let clock := strptime_of
    [("2024-01-01T12:00:00.000000Z", 43200000000);
     ("2024-01-01T12:05:00.000000Z", 43500000000)] in
  @is_valid_saml_assertion parser clock 43260000000 (Some xml) = true
  ∧ @is_valid_saml_assertion parser clock 43440000000 (Some xml) = true
  ∧ @is_valid_saml_assertion parser clock 43320000000 (Some xml) = true.
Proof.
  cbn zeta. split; [reflexivity|]. split; [reflexivity|].
  match goal with
  | |- @is_valid_saml_assertion ?parser ?clock _ ?x = true =>
      refine (@is_valid_saml_assertion_between parser clock x
                43260000000 43320000000 43440000000 eq_refl eq_refl _)
  end.
  split; discriminate.
Defined.

(** The same assertion: valid at 12:04, not at 12:05, and not at 13:00. *)
Lemma is_valid_saml_assertion_expired_for_good_example :
  let xml := "<samlp:Response>...</samlp:Response>" in
  let parser := parser_of
    [(xml, example_document "2024-01-01T12:00:00.000000Z" "2024-01-01T12:05:00.000000Z" [])] in
  let clock := strptime_of
    [("2024-01-01T12:00:00.000000Z", 43200000000);
     ("2024-01-01T12:05:00.000000Z", 43500000000)] in
  @is_valid_saml_assertion parser clock 43440000000 (Some xml) = true
  ∧ @is_valid_saml_assertion parser clock 43500000000 (Some xml) = false
  ∧ @is_valid_saml_assertion parser clock 46800000000 (Some xml) = false.
Proof.
  cbn zeta. split; [reflexivity|]. split; [reflexivity|].
  match goal with
  | |- @is_valid_saml_assertion ?parser ?clock _ ?x = false =>
      refine (@is_valid_saml_assertion_expired_for_good parser clock x
                43440000000 43500000000 46800000000 eq_refl eq_refl _)
  end.
  split; discriminate.
Defined.

(** ** Alias resolution: where the entries come from *)

Lemma split_app_sep (sep : ascii) (a b : string) :
  contains (String sep "") a = false →
  split sep (a ++ String sep b) = a :: split sep b.
Proof.
  induction a as [|c a IH]; intros Hc.
  - rewrite append_nil. cbn [split]. by rewrite Ascii.eqb_refl.
  - apply contains_cons_false in Hc as [Hp Ha].
    rewrite append_cons. cbn [split]. rewrite (IH Ha).
    cbn [String.prefix] in Hp.
    destruct (Ascii.eqb c sep) eqn:Heq; [|done].
    apply Ascii.eqb_eq in Heq as ->.
    destruct (ascii_dec sep sep); [by destruct a | done].
Qed.

(** The key of a role identifier of the usual shape,
    [arn:<partition>:iam::<account>:<resource>], is its account. *)
Theorem account_of_arn (partition account resource : string) :
  contains ":" partition = false → contains ":" account = false →
  account_of ("arn:" ++ partition ++ ":iam::" ++ account ++ ":" ++ resource)
    = inr account.
Proof.
  intros Hp Ha. unfold account_of.
  change ("arn:" ++ partition ++ ":iam::" ++ account ++ ":" ++ resource)
    with ("arn" ++ String ":" (partition ++ String ":" ("iam" ++ String ":"
            ("" ++ String ":" (account ++ String ":" resource))))).
  rewrite (split_app_sep ":" "arn") by reflexivity.
  rewrite (split_app_sep ":" partition) by exact Hp.
  rewrite (split_app_sep ":" "iam") by reflexivity.
  rewrite (split_app_sep ":" "") by reflexivity.
  rewrite (split_app_sep ":" account) by exact Ha.
  reflexivity.
Qed.

Lemma account_of_arn_example :
  account_of ("arn:" ++ "aws-us-gov" ++ ":iam::" ++ "222222222222" ++ ":" ++ "role/Foo:Bar")
    = inr "222222222222".
Proof.
  exact (account_of_arn "aws-us-gov" "222222222222" "role/Foo:Bar" eq_refl eq_refl).
Defined.

Section AliasEntries.
Context `{AliasListing}.

Lemma resolve_in_values (this : Amazon) (order : list (string * string))
    (d : gmap string string) (a v : string) :
  foldl (run_thread this) d order !! a = Some v →
  d !! a = Some v
  ∨ ∃ role principal, (role, principal) ∈ order ∧ account_of role = inr a
                      ∧ v = alias_entry this role principal a.
Proof.
  revert d. induction order as [|[role principal] order IH]; intros d; cbn [foldl];
    [by left|].
  intros [Hd|(r & p & Hin & Ha & Hv)]%IH.
  - rewrite run_thread_eq in Hd. destruct (account_of role) as [e|a'] eqn:Hrole; [by left|].
    apply lookup_insert_Some in Hd as [[<- <-]|[_ Hd]]; [|by left].
    right. exists role, principal. split; [by left | done].
  - right. exists r, p. split; [by right | done].
Qed.

(** Every entry of the result comes from a role of the input: its key is the
    account of that role and its value is the first alias listed for that
    role, or the account itself when the lookup for that role raised. *)
Theorem resolve_aws_aliases_entry_origin (this : Amazon) (roles result : gmap string string)
    (account v : string) :
  resolve_aws_aliases this roles result →
  result !! account = Some v →
  ∃ role principal,
    roles !! role = Some principal ∧ account_of role = inr account
    ∧ (account_alias_of this role principal = inr v
       ∨ (v = account ∧ ∃ err, account_alias_of this role principal = inl err)).
Proof.
  intros (order & Hperm & ->) Hv. unfold resolve_aws_aliases_in in Hv.
  apply resolve_in_values in Hv as [Hv|(role & principal & Hin & Ha & ->)]; [done|].
  exists role, principal. rewrite Hperm in Hin. apply elem_of_map_to_list in Hin.
  split; [done|]. split; [done|]. unfold alias_entry.
  destruct (account_alias_of this role principal) as [err|alias]; [right | by left].
  split; [done | by exists err].
Qed.

(** When no two roles share an account, the result does not depend on the
    order in which the workers finish. *)
Theorem resolve_aws_aliases_order_independent (this : Amazon)
    (roles result1 result2 : gmap string string) :
  (∀ role1 role2 account,
     is_Some (roles !! role1) → is_Some (roles !! role2) →
     account_of role1 = inr account → account_of role2 = inr account →
     role1 = role2) →
  resolve_aws_aliases this roles result1 →
  resolve_aws_aliases this roles result2 →
  result1 = result2.
Proof.
  intros Hinj (order1 & Hperm1 & ->) (order2 & Hperm2 & ->).
  unfold resolve_aws_aliases_in.
  assert (Hsame : ∀ orderA orderB,
    orderA ≡ₚ map_to_list roles → orderB ≡ₚ map_to_list roles →
    ∀ a v, foldl (run_thread this) ∅ orderA !! a = Some v →
           foldl (run_thread this) ∅ orderB !! a = Some v).
  { intros orderA orderB HpermA HpermB a v Hv.
    apply resolve_in_values in Hv as [Hv|(role & principal & Hin & Ha & ->)]; [done|].
    destruct (resolve_in_distinct this orderB ∅) as [Hval _].
    { rewrite HpermB. apply NoDup_map_to_list. }
    { intros [r1 p1] [r2 p2] b Hx Hy Hb1 Hb2. cbn [fst] in *.
      rewrite HpermB in Hx, Hy. apply elem_of_map_to_list in Hx, Hy.
      assert (r1 = r2) as -> by (eapply Hinj; by eauto).
      congruence. }
    apply Hval; [|done]. by rewrite HpermB, <- HpermA. }
  apply map_eq. intros a.
  destruct (foldl (run_thread this) ∅ order1 !! a) as [v|] eqn:H1.
  - symmetry. by apply (Hsame order1 order2).
  - destruct (foldl (run_thread this) ∅ order2 !! a) as [v|] eqn:H2; [|done].
    apply (Hsame order2 order1) in H2; [congruence | done | done].
Qed.

End AliasEntries.

(** *** On an example listing *)

(** Two roles of one account, one lookup succeeding: the entry of the account
    is traced back to a role of the account. *)
Lemma resolve_aws_aliases_entry_origin_example :
  let admin := "arn:aws:iam::111111111111:role/Admin" in
  let reader := "arn:aws:iam::111111111111:role/ReadOnly" in
  let provider := "arn:aws:iam::111111111111:saml-provider/Bar" in
  let roles : gmap string string := <[admin := provider]> {[ reader := provider ]} in
  let listing := listing_of [(admin, inr ["production"])] in
  let this := Amazon_init example_config (Some "<a/>x") in
  let result := @resolve_aws_aliases_in listing this [(admin, provider); (reader, provider)] in
  result !! "111111111111" = Some "111111111111"
  ∧ ∃ role principal,
      roles !! role = Some principal ∧ account_of role = inr "111111111111"
      ∧ (@account_alias_of listing this role principal = inr "111111111111"
         ∨ ("111111111111" = "111111111111"
            ∧ ∃ err, @account_alias_of listing this role principal = inl err)).
Proof.
  cbn zeta. split; [vm_compute; reflexivity|].
  set (admin := "arn:aws:iam::111111111111:role/Admin").
  set (reader := "arn:aws:iam::111111111111:role/ReadOnly").
  set (provider := "arn:aws:iam::111111111111:saml-provider/Bar").
  set (roles := <[admin := provider]> {[ reader := provider ]} : gmap string string).
  set (listing := listing_of _).
  set (this := Amazon_init _ _).
  apply (@resolve_aws_aliases_entry_origin listing this roles
           (@resolve_aws_aliases_in listing this [(admin, provider); (reader, provider)])
           "111111111111" "111111111111").
  - exists [(admin, provider); (reader, provider)]. split; [|reflexivity].
    assert (Hlist : map_to_list roles = [(admin, provider); (reader, provider)]
                    ∨ map_to_list roles = [(reader, provider); (admin, provider)]).
    { vm_compute. by (left + right). }
    destruct Hlist as [-> | ->]; [reflexivity | apply perm_swap].
  - vm_compute. reflexivity.
Defined.

(** Two roles of two accounts: the workers finishing in either order give the
    same dictionary. *)
Lemma resolve_aws_aliases_order_independent_example :
  let prod := "arn:aws:iam::111111111111:role/Foo" in
  let dev := "arn:aws:iam::222222222222:role/Foo" in
  let provider := "arn:aws:iam::111111111111:saml-provider/Bar" in
  let listing := listing_of [(prod, inr ["production"])] in
  let this := Amazon_init example_config (Some "<a/>x") in
  @resolve_aws_aliases_in listing this [(prod, provider); (dev, provider)]
  = @resolve_aws_aliases_in listing this [(dev, provider); (prod, provider)].
Proof.
  cbn zeta.
  set (prod := "arn:aws:iam::111111111111:role/Foo").
  set (dev := "arn:aws:iam::222222222222:role/Foo").
  set (provider := "arn:aws:iam::111111111111:saml-provider/Bar").
  set (listing := listing_of _).
  set (this := Amazon_init _ _).
  pose (roles := <[prod := provider]> {[ dev := provider ]} : gmap string string).
  assert (Hlist : map_to_list roles = [(prod, provider); (dev, provider)]
                  ∨ map_to_list roles = [(dev, provider); (prod, provider)]).
  { vm_compute. by (left + right). }
  apply (@resolve_aws_aliases_order_independent listing this roles).
  - intros role1 role2 account [p1 H1] [p2 H2] Ha1 Ha2. unfold roles in H1, H2.
    apply lookup_insert_Some in H1 as [[<- _]|[_ H1]];
      [|apply lookup_singleton_Some in H1 as [<- _]];
      (apply lookup_insert_Some in H2 as [[<- _]|[_ H2]];
        [|apply lookup_singleton_Some in H2 as [<- _]]);
      try reflexivity; vm_compute in Ha1, Ha2; congruence.
  - eexists. split; [|reflexivity].
    destruct Hlist as [-> | ->]; [reflexivity | apply perm_swap].
  - eexists. split; [|reflexivity].
    destruct Hlist as [-> | ->]; [apply perm_swap | reflexivity].
Defined.
